(** * yuv_reader: the sequence reader of [convert.py]

    A shallow embedding of [get_file_extension] and of the class
    [YUVReader], followed by the properties the specification states
    of them.

    The reader is glue code: it creates a directory, spawns one
    external converter per frame index, loads the images the converter
    left behind and optionally removes the directory.  The embedding
    therefore threads an explicit world through every method: a file
    tree, the dictionary [self.frames] and the trace of the calls the
    reader makes.  A method is a function from a world to an outcome;
    [sys.exit] and an uncaught Python exception are outcomes of their
    own. *)

From Stdlib Require Import Ascii String.
From stdpp Require Import gmap strings list fin_maps pretty.

Open Scope Z_scope.

(** ** Python strings *)

(** [s.split(sep)] for a one-character separator: the fields between
    the occurrences of [sep]; never the empty list. *)
Fixpoint split (sep : ascii) (s : string) : list string :=
  match s with
  | EmptyString => [EmptyString]
  | String c s' =>
      if Ascii.eqb c sep then EmptyString :: split sep s'
      else match split sep s' with
           | [] => [String c EmptyString]
           | w :: ws => String c w :: ws
           end
  end.

(** [l[-1]] and [l[0]] on the result of a [split], which is never
    empty, so that neither can raise [IndexError]. *)
Definition item_last (l : list string) : string := default EmptyString (last l).
Definition item_first (l : list string) : string := default EmptyString (head l).

(** [str(n)] and the [{n}] of an f-string, for a Python [int]. *)
Definition str (n : Z) : string := pretty n.

(** [sep not in s] *)
Fixpoint lacks (sep : ascii) (s : string) : bool :=
  match s with
  | EmptyString => true
  | String c s' => negb (Ascii.eqb c sep) && lacks sep s'
  end.

(** [s.endswith(c)] for a one-character [c]. *)
Fixpoint ends_with (c : ascii) (s : string) : bool :=
  match s with
  | EmptyString => false
  | String a EmptyString => Ascii.eqb a c
  | String _ s' => ends_with c s'
  end.

(** [get_file_extension], line 28. *)
Definition get_file_extension (file_path : string) : string :=
  item_last (split "."%char (item_last (split "/"%char file_path))).

(** ** The file tree

    [os.path.exists], [os.makedirs], [shutil.rmtree] and
    [imageio.imread] belong to Python's libraries, not to the
    repository.  They are modelled over a finite map from normalised
    paths to nodes.  A path string is normalised as POSIX resolves it:
    empty components (doubled or trailing separators) are dropped and a
    leading separator makes it absolute.  The names [.] and [..] are
    ordinary names here, and failures of the operating system itself
    (permissions, a regular file where [os.makedirs] wants a
    directory, an empty path) are outside the model. *)

Definition path : Type := bool * list string.

Definition is_abs (p : string) : bool :=
  match p with
  | String c _ => Ascii.eqb c "/"%char
  | EmptyString => false
  end.

Definition norm (p : string) : path :=
  (is_abs p, filter (λ c, c ≠ EmptyString) (split "/"%char p)).

(** A loaded image: a two-dimensional array of pixel intensities. *)
Definition Image : Type := list (list Z).

Inductive node : Type :=
  | Dir
  | ImageFile (img : Image)
  | OtherFile.

Abbreviation FS := (gmap path node).

(** [q] is [p] or lies below [p] in the tree. *)
Definition below (p q : path) : Prop := p.1 = q.1 ∧ p.2 `prefix_of` q.2.

#[global] Instance below_dec p q : Decision (below p q).
Proof. unfold below. apply _. Defined.

(** [q] lies strictly inside the directory [p]. *)
Definition inside (p q : path) : Prop := below p q ∧ p ≠ q.

#[global] Instance inside_dec p q : Decision (inside p q).
Proof. unfold inside. apply _. Defined.

(** [os.path.exists(p)] *)
Definition os_path_exists (fs : FS) (p : string) : bool :=
  bool_decide (is_Some (fs !! norm p)).

(** A path and the directories above it, outermost first. *)
Definition ancestors (p : path) : list path :=
  (λ n, (p.1, take n p.2)) <$> seq 0 (S (length p.2)).

(** [os.makedirs(p)]: the directory and its missing ancestors are
    created; entries that exist are kept. *)
Definition os_makedirs (p : string) (fs : FS) : FS :=
  foldr (λ d m, match m !! d with Some _ => m | None => <[d := Dir]> m end)
        fs (ancestors (norm p)).

(** The tree with [p] and everything below it removed. *)
Definition remove_tree (p : path) (fs : FS) : FS :=
  filter (λ kv, ¬ below p kv.1) fs.

(** ** External programs

    The converter scripts under [bash_utils/] and [ffmpeg] are opaque
    collaborators.  [subprocess.call] runs one of them to completion
    and returns its exit status, which the reader ignores; all the
    reader can observe afterwards is the file tree the program left. *)

Inductive command : Type :=
  | Shell (cmd : string)          (* subprocess.call(cmd, shell=True) *)
  | Argv (args : list string).    (* subprocess.call([...]) *)

Class External := subprocess_call : command → FS → FS.

(** ** Worlds, outcomes and the method monad *)

Inductive event : Type :=
  | EvMakedirs (p : string)
  | EvPrint (msg : string)
  | EvExit
  | EvCall (c : command)
  | EvImread (p : string)
  | EvStore (idx : Z)
  | EvRmtree (p : string)
  | EvRemove (p : string).

#[global] Instance command_eq_dec : EqDecision command.
Proof. solve_decision. Defined.

#[global] Instance event_eq_dec : EqDecision event.
Proof. solve_decision. Defined.

(** A frame: channel name to image. *)
Abbreviation Frame := (gmap string Image).

Record world : Type := World {
  fs : FS;                    (* the disk *)
  frames : gmap Z Frame;      (* self.frames *)
  trace : list event          (* what the reader did, oldest first *)
}.

Inductive exn : Type :=
  | TypeError                       (* subscript of None *)
  | IndexError                      (* list index out of range *)
  | FileNotFoundError (p : string)  (* no such file or directory *)
  | NotADirectoryError (p : string)
  | IsADirectoryError (p : string)
  | LoadError (p : string).         (* imread of something that is no image *)

Inductive outcome (A : Type) : Type :=
  | Returned (a : A) (w : world)
  | Exited (w : world)              (* sys.exit() *)
  | Raised (e : exn) (w : world).   (* uncaught exception *)

Arguments Returned {A} a w.
Arguments Exited {A} w.
Arguments Raised {A} e w.

Definition final {A} (o : outcome A) : world :=
  match o with
  | Returned _ w | Exited w | Raised _ w => w
  end.

Definition M (A : Type) : Type := world → outcome A.

#[global] Instance M_ret : MRet M := λ A a w, Returned a w.

#[global] Instance M_bind : MBind M := λ A B k m w,
  match m w with
  | Returned a w' => k a w'
  | Exited w' => Exited w'
  | Raised e w' => Raised e w'
  end.

Definition raise {A} (e : exn) : M A := λ w, Raised e w.

Definition log (e : event) : M unit := λ w,
  Returned () (World (fs w) (frames w) (trace w ++ [e])).

Definition print (msg : string) : M unit := log (EvPrint msg).

Definition sys_exit {A} : M A := λ w,
  Exited (World (fs w) (frames w) (trace w ++ [EvExit])).

Definition path_exists (p : string) : M bool := λ w,
  Returned (os_path_exists (fs w) p) w.

Definition makedirs (p : string) : M unit := λ w,
  Returned () (World (os_makedirs p (fs w)) (frames w) (trace w ++ [EvMakedirs p])).

(** [shutil.rmtree(p)] raises when [p] is missing or is no directory. *)
Definition rmtree (p : string) : M unit := λ w,
  let w' := World (fs w) (frames w) (trace w ++ [EvRmtree p]) in
  match fs w !! norm p with
  | None => Raised (FileNotFoundError p) w'
  | Some Dir => Returned () (World (remove_tree (norm p) (fs w)) (frames w) (trace w'))
  | Some _ => Raised (NotADirectoryError p) w'
  end.

(** [os.path.isfile(p)] *)
Definition isfile (p : string) : M bool := λ w,
  Returned (match fs w !! norm p with
            | Some (ImageFile _) | Some OtherFile => true
            | Some Dir | None => false
            end) w.

(** [os.remove(p)] raises when [p] is missing or is a directory. *)
Definition remove (p : string) : M unit := λ w,
  match fs w !! norm p with
  | None => Raised (FileNotFoundError p) w
  | Some Dir => Raised (IsADirectoryError p) w
  | Some _ => Returned () (World (delete (norm p) (fs w)) (frames w) (trace w ++ [EvRemove p]))
  end.

(** [imread(p)] raises when [p] is missing or holds no image. *)
Definition imread (p : string) : M Image := λ w,
  let w' := World (fs w) (frames w) (trace w ++ [EvImread p]) in
  match fs w !! norm p with
  | Some (ImageFile img) => Returned img w'
  | Some _ => Raised (LoadError p) w'
  | None => Raised (FileNotFoundError p) w'
  end.

(** [l[i]] for [l] a list or [None]. *)
Definition subscript (l : option (list Z)) (i : nat) : M Z :=
  match l with
  | None => raise TypeError
  | Some xs => match xs !! i with
               | Some x => mret x
               | None => raise IndexError
               end
  end.

(** [for idx in l: body(idx)] *)
Fixpoint for_each (l : list Z) (body : Z → M unit) : M unit :=
  match l with
  | [] => mret ()
  | idx :: l' => body idx ;; for_each l' body
  end.

(** [range(a, b)] *)
Definition range (a b : Z) : list Z := seqZ a (b - a).

(** ** The class [YUVReader] *)

(** The attributes [__init__] sets from its arguments.  [self.frames]
    is the mutable part and lives in the world; [n_frames] and [ext]
    are computed from the others. *)
Record YUVReader : Type := Self {
  input : string;
  out_dir : string;
  size : option (list Z);     (* None is the default of [__init__] *)
  start : Z;
  end_ : Z;
  fps : Z;
  clean : bool
}.

Definition n_frames (self : YUVReader) : Z := end_ self - start self.

(** [_get_file_extension], line 60. *)
Definition _get_file_extension (self : YUVReader) : string :=
  item_last (split "."%char (item_last (split "/"%char (input self)))).

(** [self.ext], assigned once at line 57. *)
Definition ext (self : YUVReader) : string := _get_file_extension self.

(** [_clean], line 64.  No method calls it. *)
Definition _clean (self : YUVReader) (idx : Z) : M unit :=
  y ← isfile (out_dir self +:+ "/" +:+ str idx +:+ "_y.png");
  (if (y : bool) then remove (out_dir self +:+ "/" +:+ str idx +:+ "_y.png") else mret ());;
  u ← isfile (out_dir self +:+ "/" +:+ str idx +:+ "_u.png");
  (if (u : bool) then remove (out_dir self +:+ "/" +:+ str idx +:+ "_u.png") else mret ());;
  v ← isfile (out_dir self +:+ "/" +:+ str idx +:+ "_v.png");
  if (v : bool) then remove (out_dir self +:+ "/" +:+ str idx +:+ "_v.png") else mret ().

(** The command lines of lines 76 and 88. *)
Definition converter_cmd (script : string) (self : YUVReader) (inp : string)
    (idx w h : Z) : string :=
  "bash bash_utils/" +:+ script +:+ " " +:+ inp +:+ " " +:+ out_dir self +:+ " "
    +:+ str idx +:+ " bash_utils/convert_img.py " +:+ str w +:+ " " +:+ str h.

(** [self.frames[idx] = frame] *)
Definition store (idx : Z) (frame : Frame) : M unit := λ w,
  Returned () (World (fs w) (<[idx := frame]> (frames w)) (trace w ++ [EvStore idx])).

(** [self.frames = {}] *)
Definition reset_frames : M unit := λ w,
  Returned () (World (fs w) ∅ (trace w)).

Section Reader.
Context `{External}.

(** [subprocess.call]: the program runs to completion before the
    call returns. *)
Definition call (c : command) : M unit := λ w,
  Returned () (World (subprocess_call c (fs w)) (frames w) (trace w ++ [EvCall c])).

(** One turn of the loop of [_read_yuv], lines 76 to 81. *)
Definition _read_yuv_frame (self : YUVReader) (inp : string) (idx : Z) : M unit :=
  w ← subscript (size self) 0;
  h ← subscript (size self) 1;
  call (Shell (converter_cmd "yuv_to_png.sh" self inp idx w h));;
  y ← imread (out_dir self +:+ str idx +:+ "_y.png");
  u ← imread (out_dir self +:+ str idx +:+ "_u.png");
  v ← imread (out_dir self +:+ str idx +:+ "_v.png");
  store idx (<["v" := v]> (<["u" := u]> (<["y" := y]> ∅))).

(** [_read_yuv], line 73. *)
Definition _read_yuv (self : YUVReader) (inp : string) : M unit :=
  for_each (range (start self) (end_ self)) (_read_yuv_frame self inp);;
  if clean self then rmtree (out_dir self) else mret ().

(** One turn of the loop of [_read_y], lines 88 to 91. *)
Definition _read_y_frame (self : YUVReader) (inp : string) (idx : Z) : M unit :=
  w ← subscript (size self) 0;
  h ← subscript (size self) 1;
  call (Shell (converter_cmd "y_to_png.sh" self inp idx w h));;
  y ← imread (out_dir self +:+ "/" +:+ str idx +:+ "_y.png");
  store idx (<["y" := y]> ∅).

(** [_read_y], line 85. *)
Definition _read_y (self : YUVReader) (inp : string) : M unit :=
  for_each (range (start self) (end_ self)) (_read_y_frame self inp);;
  if clean self then rmtree (out_dir self) else mret ().

(** The path of the transcoded file, line 108. *)
Definition out_yuv (self : YUVReader) : string :=
  out_dir self +:+ item_first (split "."%char (item_last (split "/"%char (input self))))
    +:+ ".yuv".

(** The argument list handed to the transcoder, line 109. *)
Definition ffmpeg_args (self : YUVReader) : list string :=
  [ "ffmpeg"; "-nostats"; "-loglevel"; "error"; "-i"; input self; out_yuv self;
    "-r"; str (fps self) ].

(** [_read], line 95: three independent tests on [self.ext]. *)
Definition _read (self : YUVReader) : M unit :=
  (if String.eqb (ext self) "yuv" then _read_yuv self (input self) else mret ());;
  (if String.eqb (ext self) "y" then _read_y self (input self) else mret ());;
  (if String.eqb (ext self) "mp4"
   then call (Argv (ffmpeg_args self));; _read_yuv self (out_yuv self)
   else mret ()).

(** [__init__], line 40. *)
Definition __init__ (input_file : string) (size' : option (list Z))
    (start' end' fps' : Z) (out_dir' : string) (clean' : bool) : M YUVReader :=
  let self := Self input_file out_dir' size' start' end' fps' clean' in
  there ← path_exists (out_dir self);
  (if negb there then makedirs (out_dir self) else mret ());;
  reset_frames;;
  if n_frames self <=? 0
  then print "[ERROR]: Number of frames must be greater than 0! Exiting..";; sys_exit
  else _read self;; mret self.

(** [YUVReader(...)] evaluated on the disk [disk]. *)
Definition construct (disk : FS) (input_file : string) (size' : option (list Z))
    (start' end' fps' : Z) (out_dir' : string) (clean' : bool) : outcome YUVReader :=
  __init__ input_file size' start' end' fps' out_dir' clean' (World disk ∅ []).

End Reader.

(** ** Vocabulary of the properties *)

(** The message of line 55. *)
Definition range_error : string :=
  "[ERROR]: Number of frames must be greater than 0! Exiting..".

(** The world in which [__init__] reaches the test of line 54: the
    output directory has been created if it was missing and
    [self.frames] is the empty dictionary. *)
Definition after_setup (disk : FS) (dir : string) : world :=
  if os_path_exists disk dir
  then World disk ∅ []
  else World (os_makedirs dir disk) ∅ [EvMakedirs dir].

(** The extensions [_read] has a branch for. *)
Definition supported (e : string) : Prop := e = "yuv" ∨ e = "y" ∨ e = "mp4".

(** The two numbers the command line takes from [self.size], when
    both subscripts succeed. *)
Definition dims (self : YUVReader) : option (Z * Z) :=
  match size self with
  | Some xs => match xs !! 0%nat, xs !! 1%nat with
               | Some w, Some h => Some (w, h)
               | _, _ => None
               end
  | None => None
  end.

(** The calls one turn of each loop makes when nothing raises: the
    converter, then the loads, then the assignment to [self.frames]. *)
Definition yuv_frame_events (self : YUVReader) (inp : string) (idx : Z) : list event :=
  match dims self with
  | Some (w, h) =>
      [ EvCall (Shell (converter_cmd "yuv_to_png.sh" self inp idx w h));
        EvImread (out_dir self +:+ str idx +:+ "_y.png");
        EvImread (out_dir self +:+ str idx +:+ "_u.png");
        EvImread (out_dir self +:+ str idx +:+ "_v.png");
        EvStore idx ]
  | None => []
  end.

Definition y_frame_events (self : YUVReader) (inp : string) (idx : Z) : list event :=
  match dims self with
  | Some (w, h) =>
      [ EvCall (Shell (converter_cmd "y_to_png.sh" self inp idx w h));
        EvImread (out_dir self +:+ "/" +:+ str idx +:+ "_y.png");
        EvStore idx ]
  | None => []
  end.

Definition cleanup_events (self : YUVReader) : list event :=
  if clean self then [EvRmtree (out_dir self)] else [].

(** The disk after the external programs and directory creations of a
    trace, in order; loads, stores and prints leave the disk alone. *)
Definition replay `{External} (t : list event) (disk : FS) : FS :=
  foldl (λ d e, match e with
                | EvCall c => subprocess_call c d
                | EvMakedirs p => os_makedirs p d
                | _ => d
                end) disk t.

Definition is_removal (e : event) : bool :=
  match e with EvRmtree _ | EvRemove _ => true | _ => false end.

(** Every frame of the later world was there before or has exactly the
    channels [chans]. *)
Definition frames_grow (chans : gset string) (w0 w1 : world) : Prop :=
  ∀ k fr, frames w1 !! k = Some fr → frames w0 !! k = Some fr ∨ dom fr = chans.

(** What a run of a loop over [keys] leaves, whatever its outcome: it
    does not exit, its calls are an initial part of [evs], the disk
    changed through those calls only, and the frames it stored have
    the channels [chans] and keys among [keys].  When the loop runs to
    its end, the calls are all of [evs] and the keys all of [keys]. *)
Definition loop_post `{External} (evs : list event) (chans : gset string)
    (keys : list Z) (w0 : world) (o : outcome unit) : Prop :=
  (∀ w1, o ≠ Exited w1) ∧
  (∃ t, trace (final o) = trace w0 ++ t ∧ t `prefix_of` evs ∧
        fs (final o) = replay t (fs w0)) ∧
  frames_grow chans w0 (final o) ∧
  (∀ k, k ∈ dom (frames (final o)) → k ∈ dom (frames w0) ∨ k ∈ keys) ∧
  match o with
  | Returned _ w1 =>
      trace w1 = trace w0 ++ evs ∧ dom (frames w1) = dom (frames w0) ∪ list_to_set keys
  | _ => True
  end.

(** The calls of a whole loop that runs to its end. *)
Definition yuv_loop_events (self : YUVReader) (inp : string) : list event :=
  concat (yuv_frame_events self inp <$> range (start self) (end_ self)).

Definition y_loop_events (self : YUVReader) (inp : string) : list event :=
  concat (y_frame_events self inp <$> range (start self) (end_ self)).

(** What a read strategy (a loop followed by the optional cleanup)
    leaves.  With cleanup disabled the disk changes through the calls
    of the trace only and nothing is removed; with cleanup enabled a
    strategy that returns leaves nothing at or below the output
    directory. *)
Definition strategy_post `{External} (evs : list event) (chans : gset string)
    (self : YUVReader) (w0 : world) (o : outcome unit) : Prop :=
  (∀ w1, o ≠ Exited w1) ∧
  (∃ t, trace (final o) = trace w0 ++ t ∧ t `prefix_of` evs ++ cleanup_events self ∧
        (clean self = false →
           fs (final o) = replay t (fs w0) ∧ Forall (λ e, is_removal e = false) t)) ∧
  frames_grow chans w0 (final o) ∧
  (∀ k, k ∈ dom (frames (final o)) →
        k ∈ dom (frames w0) ∨ start self ≤ k < end_ self) ∧
  match o with
  | Returned _ w1 =>
      trace w1 = trace w0 ++ evs ++ cleanup_events self ∧
      dom (frames w1) = dom (frames w0) ∪ list_to_set (range (start self) (end_ self)) ∧
      (clean self = true → ∀ q, below (norm (out_dir self)) q → fs w1 !! q = None)
  | _ => True
  end.

(** The channel names of a frame read from raw YUV, and from luma only. *)
Definition yuv_channels : gset string := {[ "y"; "u"; "v" ]}.
Definition y_channels : gset string := {[ "y" ]}.

(** ** Stand-ins for the external programs

    An executable converter and transcoder, used to run the reader on
    examples.  The converter reads the output directory and the index
    off the command line and writes one constant image per channel,
    joining directory and file name with [joint]; the transcoder
    writes its output file where its seventh argument says. *)

Definition field (l : list string) (i : nat) : string := default EmptyString (l !! i).

Definition demo_image : Image := [[0; 0]; [0; 0]].

Definition demo_external (joint : string) : External := λ c disk,
  match c with
  | Shell cmd =>
      let a := split " "%char cmd in
      let put ch d :=
        <[norm (field a 3 +:+ joint +:+ field a 4 +:+ ch) := ImageFile demo_image]> d in
      if String.eqb (field a 1) "bash_utils/yuv_to_png.sh"
      then put "_v.png" (put "_u.png" (put "_y.png" disk))
      else put "_y.png" disk
  | Argv args => <[norm (field args 6) := OtherFile]> disk
  end.

(** A disk holding only the working directory. *)
Definition empty_disk : FS := {[ (false, []) := Dir ]}.

(** [YUVReader(...)] on that disk, with the stand-in that joins with
    [joint]. *)
Definition run_demo (joint : string) :
    string → option (list Z) → Z → Z → Z → string → bool → outcome YUVReader :=
  @construct (demo_external joint) empty_disk.

(** ** The script part, lines 163 to 182

    What the module does when run as a program, once the arguments are
    parsed: it builds a reader and walks the frame store over
    [range(args.start, args.end)], printing the shape of every channel
    it finds.  A run gets this far only with integer [start] and [end]
    (line 53 subtracts them), which is how they are taken here. *)

(** The key a dictionary lookup failed on. *)
Inductive key : Type :=
  | IntKey (idx : Z)
  | StrKey (name : string).

(** How the script part ends: it walked all frames, a lookup raised
    [KeyError], or the construction did not return. *)
Inductive script_outcome : Type :=
  | Finished (w : world)
  | KeyError (k : key) (w : world)
  | Stopped (o : outcome YUVReader).

(** [a.shape] of a two-dimensional array, as [print] shows it. *)
Definition shape (img : Image) : string :=
  "(" +:+ str (Z.of_nat (length img)) +:+ ", "
      +:+ str (Z.of_nat (length (default [] (head img)))) +:+ ")".

(** [print(label, a.shape)] *)
Definition say (label : string) (img : Image) (w : world) : world :=
  World (fs w) (frames w) (trace w ++ [EvPrint (label +:+ " " +:+ shape img)]).

(** The body of the loop, lines 171 to 181. *)
Definition show_frame (idx : Z) (w : world) : script_outcome :=
  match frames w !! idx with
  | None => KeyError (IntKey idx) w
  | Some target_frame =>
      match target_frame !! "y" with
      | None => KeyError (StrKey "y") w
      | Some y_frame =>
          let w1 := say "Y FRAME:" y_frame w in
          let w2 := match target_frame !! "u" with
                    | Some u_frame => say "U FRAME:" u_frame w1
                    | None => w1
                    end in
          let w3 := match target_frame !! "v" with
                    | Some v_frame => say "V FRAME:" v_frame w2
                    | None => w2
                    end in
          Finished w3
      end
  end.

(** The loop of line 170. *)
Fixpoint show_frames (l : list Z) (w : world) : script_outcome :=
  match l with
  | [] => Finished w
  | idx :: l' =>
      match show_frame idx w with
      | Finished w' => show_frames l' w'
      | stop => stop
      end
  end.

(** Lines 164 to 181, for parsed arguments. *)
Definition main `{External} (disk : FS) (input_file : string) (size' : option (list Z))
    (start' end' fps' : Z) (out_dir' : string) (clean' : bool) : script_outcome :=
  match construct disk input_file size' start' end' fps' out_dir' clean' with
  | Returned reader w => show_frames (range start' end') w
  | o => Stopped o
  end.

(** ** Vocabulary of the further properties *)

Definition returned {A} (o : outcome A) : bool :=
  match o with Returned _ _ => true | _ => false end.

Definition is_file (n : option node) : bool :=
  match n with
  | Some (ImageFile _) | Some OtherFile => true
  | Some Dir | None => false
  end.

(** One guarded removal of [_clean]: [if os.path.isfile(p): os.remove(p)]. *)
Definition unlink (p : string) (w : world) : world :=
  if is_file (fs w !! norm p)
  then World (delete (norm p) (fs w)) (frames w) (trace w ++ [EvRemove p])
  else w.

(** The lines the loop prints for one frame. *)
Definition frame_lines (target : Frame) : list event :=
  match target !! "y" with
  | Some y => [EvPrint ("Y FRAME: " +:+ shape y)]
  | None => []
  end ++
  match target !! "u" with
  | Some u => [EvPrint ("U FRAME: " +:+ shape u)]
  | None => []
  end ++
  match target !! "v" with
  | Some v => [EvPrint ("V FRAME: " +:+ shape v)]
  | None => []
  end.

(** An external call that is not a converter script. *)
Definition is_transcode (e : event) : bool :=
  match e with EvCall (Argv _) => true | _ => false end.

Definition is_external (e : event) : bool :=
  match e with EvCall _ => true | _ => false end.

(** The indices of the assignments [self.frames[idx] = frame] of a
    trace, in the order they were made. *)
Definition stores (t : list event) : list Z :=
  omap (λ e, match e with EvStore idx => Some idx | _ => None end) t.

(** A converter that breaks down at the index [stop]: it writes
    nothing for that index and works as [demo_external] for every
    other. *)
Definition demo_external_until (joint : string) (stop : Z) : External := λ c disk,
  match c with
  | Shell cmd =>
      if String.eqb (field (split " "%char cmd) 4) (str stop)
      then disk
      else demo_external joint c disk
  | Argv _ => demo_external joint c disk
  end.

(** ** Facts about [split] *)

Lemma split_nonempty sep s : split sep s ≠ [].
Proof.
  destruct s as [|c s]; simpl; [done|].
  destruct (Ascii.eqb c sep); [done|]. by destruct (split sep s).
Qed.

Lemma split_lacks sep t : lacks sep t = true → split sep t = [t].
Proof.
  induction t as [|c t IH]; simpl; [done|].
  intros [Hc Ht]%andb_true_iff. apply negb_true_iff in Hc.
  rewrite Hc, IH by done. done.
Qed.

(** Appending text without a separator only lengthens the last field. *)
Lemma split_snoc_app sep s :
  ∃ l x, split sep s = l ++ [x] ∧
         ∀ t, lacks sep t = true → split sep (s +:+ t) = l ++ [x +:+ t].
Proof.
  induction s as [|c s (l & x & Hs & Ht)]; simpl.
  - exists [], EmptyString. split; [done|]. intros t Hl. by apply split_lacks.
  - destruct (Ascii.eqb c sep).
    + exists (EmptyString :: l), x. split; [by rewrite Hs|].
      intros t Hl. by rewrite Ht.
    + destruct l as [|a l].
      * exists [], (String c x). split; [by rewrite Hs|].
        intros t Hl. by rewrite Ht.
      * exists (String c a :: l), x. split; [by rewrite Hs|].
        intros t Hl. by rewrite Ht.
Qed.

(** A separator in the middle separates. *)
Lemma split_app_sep sep s t :
  split sep (s +:+ String sep t) = split sep s ++ split sep t.
Proof.
  induction s as [|c s IH]; simpl.
  - by rewrite Ascii.eqb_refl.
  - destruct (Ascii.eqb c sep); [by rewrite IH|].
    rewrite IH. pose proof (split_nonempty sep s).
    by destruct (split sep s).
Qed.

Lemma item_last_snoc l x : item_last (l ++ [x]) = x.
Proof. unfold item_last. by rewrite last_snoc. Qed.

Lemma item_last_split_app sep s t :
  lacks sep t = true →
  item_last (split sep (s +:+ t)) = item_last (split sep s) +:+ t.
Proof.
  intros Hl. destruct (split_snoc_app sep s) as (l & x & Hs & Ht).
  by rewrite Ht, Hs, !item_last_snoc.
Qed.

Lemma item_last_split_sep sep s t :
  lacks sep t = true → item_last (split sep (s +:+ String sep t)) = t.
Proof.
  intros Hl. rewrite split_app_sep, (split_lacks sep t) by done.
  apply item_last_snoc.
Qed.

(** Every field of a split lacks the separator, and whatever else the
    string lacked. *)
Lemma split_fields_lack sep d s :
  (d = sep ∨ lacks d s = true) → Forall (λ x, lacks d x = true) (split sep s).
Proof.
  induction s as [|c s IH]; simpl; intros Hd.
  - by constructor.
  - destruct (Ascii.eqb_spec c sep) as [->|Hne].
    + constructor; [done|]. apply IH. destruct Hd as [?|Hd]; [by left|].
      right. by apply andb_true_iff in Hd as [_ ?].
    + assert (Hcd : Ascii.eqb c d = false ∧ (d = sep ∨ lacks d s = true)).
      { destruct Hd as [->|Hd].
        - split; [by apply Ascii.eqb_neq | by left].
        - apply andb_true_iff in Hd as [Hc ?]. apply negb_true_iff in Hc. auto. }
      destruct Hcd as [Hc Hd']. specialize (IH Hd').
      pose proof (split_nonempty sep s).
      destruct (split sep s) as [|w ws]; [done|].
      apply Forall_cons in IH as [Hw Hws].
      constructor; [|done]. simpl. by rewrite Hc, Hw.
Qed.

Lemma item_last_lacks d l :
  Forall (λ x, lacks d x = true) l → lacks d (item_last l) = true.
Proof.
  unfold item_last. intros Hl. destruct (last l) as [x|] eqn:E; [|done].
  simpl. apply last_Some in E as [l' ->].
  by apply Forall_app in Hl as [_ [? _]%Forall_cons].
Qed.

Lemma item_first_lacks d l :
  Forall (λ x, lacks d x = true) l → lacks d (item_first l) = true.
Proof. unfold item_first. by intros [|x l' ? ?]. Qed.

Lemma lacks_app d s t : lacks d (s +:+ t) = lacks d s && lacks d t.
Proof. induction s as [|c s IH]; simpl; [done|]. by rewrite IH, andb_assoc. Qed.

Lemma ends_with_app c s : ends_with c s = true → ∃ s0, s = s0 +:+ String c EmptyString.
Proof.
  induction s as [|a s IH]; simpl; [done|].
  destruct s as [|b s].
  - intros ->%Ascii.eqb_eq. by exists EmptyString.
  - intros Hs. destruct (IH Hs) as [s0 Hs0]. exists (String a s0). simpl. by rewrite Hs0.
Qed.

(** The extension of a path that ends in a dot and a plain word is
    that word. *)
Lemma get_file_extension_suffix base e :
  lacks "."%char e = true → lacks "/"%char e = true →
  get_file_extension (base +:+ "." +:+ e) = e.
Proof.
  intros Hdot Hslash. unfold get_file_extension.
  change (base +:+ "." +:+ e) with (base +:+ String "." e).
  rewrite item_last_split_app by (simpl; by rewrite Hslash).
  by apply item_last_split_sep.
Qed.

(** ** Facts about paths and the file tree *)

Lemma append_nil t : EmptyString +:+ t = t.
Proof. reflexivity. Qed.

Lemma append_cons a s t : String a s +:+ t = String a (s +:+ t).
Proof. reflexivity. Qed.

Lemma app_String_assoc s c t : (s +:+ String c EmptyString) +:+ t = s +:+ String c t.
Proof.
  induction s as [|a s IH]; [done|]. by rewrite !append_cons, IH.
Qed.


Lemma is_abs_app_sep s t : is_abs (s +:+ String "/" t) = is_abs (s +:+ String "/" EmptyString).
Proof. by destruct s. Qed.

(** A name appended to a directory string that ends in a separator is
    an entry of that directory. *)
Lemma norm_child d name :
  ends_with "/" d = true → lacks "/" name = true → name ≠ EmptyString →
  norm (d +:+ name) = ((norm d).1, (norm d).2 ++ [name]).
Proof.
  intros [d0 ->]%ends_with_app Hl Hne. rewrite app_String_assoc. unfold norm. simpl.
  rewrite is_abs_app_sep. f_equal.
  rewrite !split_app_sep, !filter_app, (split_lacks _ name) by done. simpl.
  rewrite (filter_cons_True _ name) by done.
  rewrite (filter_cons_False _ EmptyString) by (by intros ?).
  rewrite !filter_nil. by rewrite app_nil_r.
Qed.

Lemma below_refl p : below p p.
Proof. by split. Qed.

Lemma inside_child p name : inside p (p.1, p.2 ++ [name]).
Proof.
  destruct p as [a cs]. split; [split; [done|by apply prefix_app_r]|].
  simpl. intros [= Hcs]. apply (f_equal length) in Hcs.
  rewrite length_app in Hcs. simpl in Hcs. lia.
Qed.

Lemma remove_tree_below p q disk : below p q → remove_tree p disk !! q = None.
Proof.
  intros Hb. unfold remove_tree. apply map_lookup_filter_None. right.
  intros x _ Hn. by apply Hn.
Qed.

Lemma remove_tree_other p q disk : ¬ below p q → remove_tree p disk !! q = disk !! q.
Proof.
  intros Hb. unfold remove_tree. destruct (disk !! q) as [x|] eqn:E.
  - by apply map_lookup_filter_Some.
  - apply map_lookup_filter_None. by left.
Qed.

Lemma os_path_exists_true disk p : os_path_exists disk p = true ↔ is_Some (disk !! norm p).
Proof. unfold os_path_exists. apply bool_decide_eq_true. Qed.

Lemma os_path_exists_false disk p : os_path_exists disk p = false ↔ disk !! norm p = None.
Proof.
  unfold os_path_exists. rewrite bool_decide_eq_false. by rewrite eq_None_not_Some.
Qed.

Lemma makedirs_fold_keeps (l : list path) (disk : FS) q :
  is_Some (disk !! q) →
  is_Some (foldr (λ d m, match m !! d with Some _ => m | None => <[d := Dir]> m end)
                 disk l !! q).
Proof.
  intros Hq. induction l as [|d l IH]; simpl; [done|].
  case_match; [done|]. destruct (decide (d = q)) as [->|Hne].
  - rewrite lookup_insert_eq. eauto.
  - by rewrite lookup_insert_ne.
Qed.

Lemma makedirs_fold_adds (l : list path) (disk : FS) q :
  q ∈ l →
  is_Some (foldr (λ d m, match m !! d with Some _ => m | None => <[d := Dir]> m end)
                 disk l !! q).
Proof.
  induction l as [|d l IH]; [by intros ?%elem_of_nil|].
  intros [->|Hin]%elem_of_cons; simpl.
  - case_match eqn:E; [by rewrite E|]. rewrite lookup_insert_eq. eauto.
  - specialize (IH Hin). case_match; [done|].
    destruct (decide (d = q)) as [->|Hne].
    + rewrite lookup_insert_eq. eauto.
    + by rewrite lookup_insert_ne.
Qed.

Lemma ancestors_self p : p ∈ ancestors p.
Proof.
  unfold ancestors. apply list_elem_of_fmap. exists (length p.2). split.
  - rewrite firstn_all. by destruct p.
  - apply elem_of_seq. lia.
Qed.

(** After [os.makedirs(p)] the path exists. *)
Lemma os_makedirs_exists p disk : os_path_exists (os_makedirs p disk) p = true.
Proof.
  apply os_path_exists_true. unfold os_makedirs.
  apply makedirs_fold_adds, ancestors_self.
Qed.

Lemma makedirs_fold_dir (l : list path) (disk : FS) q :
  q ∈ l → disk !! q = None →
  foldr (λ d m, match m !! d with Some _ => m | None => <[d := Dir]> m end)
        disk l !! q = Some Dir.
Proof.
  intros Hin Hq. induction l as [|d l IH]; [by apply elem_of_nil in Hin|]. simpl.
  destruct (decide (d = q)) as [->|Hne].
  - case_match eqn:E; [|by rewrite lookup_insert_eq].
    apply elem_of_cons in Hin as [_|Hin]; [|by rewrite (IH Hin) in E; simplify_eq].
    destruct (decide (q ∈ l)) as [Hl|Hl]; [by rewrite (IH Hl) in E; simplify_eq|].
    clear IH. exfalso. revert E. clear -Hq Hl.
    induction l as [|d l IH]; simpl; [by rewrite Hq|].
    apply not_elem_of_cons in Hl as [Hne Hl].
    case_match; [by apply IH|]. rewrite lookup_insert_ne by done. by apply IH.
  - apply elem_of_cons in Hin as [?|Hin]; [done|].
    case_match; [by apply IH|]. rewrite lookup_insert_ne by done. by apply IH.
Qed.

(** [os.makedirs(p)] makes a directory of a path that was missing. *)
Lemma os_makedirs_dir p disk :
  disk !! norm p = None → os_makedirs p disk !! norm p = Some Dir.
Proof.
  intros Hno. unfold os_makedirs. apply makedirs_fold_dir; [apply ancestors_self|done].
Qed.

(** [os.makedirs] removes nothing. *)
Lemma os_makedirs_keeps p q disk :
  os_path_exists disk q = true → os_path_exists (os_makedirs p disk) q = true.
Proof.
  rewrite !os_path_exists_true. apply makedirs_fold_keeps.
Qed.

Lemma os_makedirs_changes p disk :
  os_path_exists disk p = false → os_makedirs p disk ≠ disk.
Proof.
  intros Hno Heq. pose proof (os_makedirs_exists p disk) as Hyes.
  rewrite Heq in Hyes. congruence.
Qed.

(** ** The loops *)

Section Loops.
Context `{External}.

Lemma bind_unfold {A B} (m : M A) (k : A → M B) w :
  (m ≫= k) w = match m w with
               | Returned a w' => k a w'
               | Exited w' => Exited w'
               | Raised e w' => Raised e w'
               end.
Proof. reflexivity. Qed.

Lemma bind_ret_unit (m : M unit) w : (m ;; mret ()) w = m w.
Proof. rewrite bind_unfold. by destruct (m w) as [[] ?| |]. Qed.

Lemma replay_app t1 t2 disk : replay (t1 ++ t2) disk = replay t2 (replay t1 disk).
Proof. apply foldl_app. Qed.

Lemma frames_grow_refl chans w : frames_grow chans w w.
Proof. intros k fr ?. by left. Qed.

Lemma frames_grow_trans chans w0 w1 w2 :
  frames_grow chans w0 w1 → frames_grow chans w1 w2 → frames_grow chans w0 w2.
Proof.
  intros H01 H12 k fr Hk. destruct (H12 k fr Hk) as [Hk1|?]; [|by right].
  by apply H01.
Qed.

Lemma frames_grow_insert chans w0 w1 idx fr :
  frames w1 = <[idx := fr]> (frames w0) → dom fr = chans → frames_grow chans w0 w1.
Proof.
  intros Hw Hd k fr' Hk. rewrite Hw in Hk.
  destruct (decide (idx = k)) as [->|Hne].
  - rewrite lookup_insert_eq in Hk. right. congruence.
  - rewrite lookup_insert_ne in Hk by done. by left.
Qed.

Lemma dom_insert_keys (m : gmap Z Frame) idx fr k :
  k ∈ dom (<[idx := fr]> m) → k ∈ dom m ∨ k ∈ [idx].
Proof.
  rewrite dom_insert_L, elem_of_union, elem_of_singleton.
  intros [->|?]; [right; by constructor|by left].
Qed.

Lemma dom_insert_single (m : gmap Z Frame) idx fr :
  dom (<[idx := fr]> m) = dom m ∪ list_to_set [idx].
Proof.
  rewrite dom_insert_L, list_to_set_cons, list_to_set_nil, (right_id_L ∅ (∪)).
  apply (comm_L (∪)).
Qed.

Lemma dom_yuv_frame (y u v : Image) :
  dom (<["v" := v]> (<["u" := u]> (<["y" := y]> (∅ : Frame)))) = yuv_channels.
Proof. rewrite !dom_insert_L, dom_empty_L. unfold yuv_channels. set_solver. Qed.

Lemma dom_y_frame (y : Image) : dom (<["y" := y]> (∅ : Frame)) = y_channels.
Proof. rewrite !dom_insert_L, dom_empty_L. unfold y_channels. set_solver. Qed.

(** The loops share their shape: a body that meets [loop_post] for
    its own index gives a loop that meets it for the whole range. *)
Section Generic.
Variable body : Z → M unit.
Variable evs : Z → list event.
Variable chans : gset string.
Hypothesis body_post : ∀ idx w0, loop_post (evs idx) chans [idx] w0 (body idx w0).

Lemma for_each_post l w0 :
  loop_post (concat (evs <$> l)) chans l w0 (for_each l body w0).
Proof.
  revert w0. induction l as [|idx l IH]; intros w0.
  - unfold loop_post; simpl. split_and!.
    + done.
    + exists []. by rewrite app_nil_r.
    + apply frames_grow_refl.
    + intros k ?. by left.
    + by rewrite app_nil_r.
    + by rewrite (right_id_L ∅ (∪)).
  - change (for_each (idx :: l) body w0) with ((body idx ;; for_each l body) w0).
    rewrite bind_unfold.
    destruct (body_post idx w0) as (Hx & (t & Ht & Hp & Hfs) & Hg & Hk & Hr).
    destruct (body idx w0) as [[] w1|w1|e w1]; simpl in *.
    + destruct Hr as [Htr Hdom].
      assert (t = evs idx) as -> by (rewrite Htr in Ht; by apply app_inv_head in Ht).
      destruct (IH w1) as (Hx' & (t' & Ht' & Hp' & Hfs') & Hg' & Hk' & Hr').
      unfold loop_post. split_and!.
      * done.
      * exists (evs idx ++ t'). rewrite Ht', Htr, Hfs', Hfs, replay_app, app_assoc.
        split_and!; [done|by apply prefix_app|done].
      * by eapply frames_grow_trans.
      * intros k Hin. rewrite elem_of_cons.
        destruct (Hk' k Hin) as [Hin'|?]; [|by right; right].
        destruct (Hk k Hin') as [?|Hi]; [by left|right].
        apply elem_of_cons in Hi as [->|[]%elem_of_nil]. by left.
      * destruct (for_each l body w1) as [[] w2|w2|e w2]; [|done..].
        destruct Hr' as [Htr' Hdom']. rewrite Htr', Htr, Hdom', Hdom, app_assoc.
        split; [done|].
        by rewrite ?list_to_set_cons, ?list_to_set_nil, (right_id_L ∅ (∪)), (assoc_L (∪)).
    + by destruct (Hx w1).
    + unfold loop_post; simpl. split_and!.
      * done.
      * exists t. split_and!; [done| |done]. by apply prefix_app_r.
      * done.
      * intros k Hin. rewrite elem_of_cons.
        destruct (Hk k Hin) as [?|Hi]; [by left|right].
        apply elem_of_cons in Hi as [->|[]%elem_of_nil]. by left.
      * done.
Qed.
End Generic.

Ltac run_frame :=
  unfold subscript, call, imread, store, raise, mbind, M_bind, mret, M_ret;
  simpl; repeat (case_match; simplify_eq/=).

Ltac close_frame :=
  unfold loop_post; simpl; split_and!;
  first
    [ done
    | eexists; split_and!;
      [ rewrite <- ?app_assoc; simpl; first [reflexivity | by rewrite app_nil_r]
      | solve [eexists; simpl; reflexivity]
      | reflexivity ]
    | apply frames_grow_refl
    | eapply frames_grow_insert;
      [reflexivity | first [apply dom_yuv_frame | apply dom_y_frame]]
    | intros k ?; by left
    | by rewrite <- ?app_assoc
    | apply dom_insert_keys
    | apply dom_insert_single ].

(** One turn of the loop of [_read_yuv]. *)
Lemma _read_yuv_frame_post self inp idx w0 :
  loop_post (yuv_frame_events self inp idx) yuv_channels [idx] w0
            (_read_yuv_frame self inp idx w0).
Proof.
  unfold _read_yuv_frame, yuv_frame_events, dims, subscript.
  destruct (size self) as [xs|]; [|run_frame; close_frame].
  destruct (xs !! 0%nat) as [w|]; [|run_frame; close_frame].
  destruct (xs !! 1%nat) as [h|]; [|run_frame; close_frame].
  run_frame; close_frame.
Qed.

(** One turn of the loop of [_read_y]. *)
Lemma _read_y_frame_post self inp idx w0 :
  loop_post (y_frame_events self inp idx) y_channels [idx] w0
            (_read_y_frame self inp idx w0).
Proof.
  unfold _read_y_frame, y_frame_events, dims, subscript.
  destruct (size self) as [xs|]; [|run_frame; close_frame].
  destruct (xs !! 0%nat) as [w|]; [|run_frame; close_frame].
  destruct (xs !! 1%nat) as [h|]; [|run_frame; close_frame].
  run_frame; close_frame.
Qed.

Lemma frame_events_no_rmtree (evs : Z → list event) l :
  (∀ idx, Forall (λ e, is_removal e = false) (evs idx)) →
  Forall (λ e, is_removal e = false) (concat (evs <$> l)).
Proof.
  intros Hev. induction l as [|idx l IH]; simpl; [done|].
  apply Forall_app. by split.
Qed.

Lemma yuv_frame_events_no_rmtree self inp idx :
  Forall (λ e, is_removal e = false) (yuv_frame_events self inp idx).
Proof.
  unfold yuv_frame_events. destruct (dims self) as [[w h]|]; [|done].
  by repeat constructor.
Qed.

Lemma y_frame_events_no_rmtree self inp idx :
  Forall (λ e, is_removal e = false) (y_frame_events self inp idx).
Proof.
  unfold y_frame_events. destruct (dims self) as [[w h]|]; [|done].
  by repeat constructor.
Qed.

Lemma prefix_Forall {A} (P : A → Prop) (l k : list A) :
  l `prefix_of` k → Forall P k → Forall P l.
Proof. intros [k' ->] Hk. by apply Forall_app in Hk as [? _]. Qed.

(** A loop followed by the cleanup of lines 82 and 92. *)
Lemma cleanup_post (loop : M unit) evs chans self w0 :
  loop_post evs chans (range (start self) (end_ self)) w0 (loop w0) →
  Forall (λ e, is_removal e = false) evs →
  strategy_post evs chans self w0
    ((loop;; if clean self then rmtree (out_dir self) else mret ()) w0).
Proof.
  intros (Hx & (t & Ht & Hp & Hfs) & Hg & Hk & Hr) Hev.
  assert (Hkeys : ∀ k w, w = final (loop w0) → k ∈ dom (frames w) →
                  k ∈ dom (frames w0) ∨ start self ≤ k < end_ self).
  { intros k w -> Hin. destruct (Hk k Hin) as [?|Hin']; [by left|right].
    unfold range in Hin'. apply elem_of_seqZ in Hin'. lia. }
  rewrite bind_unfold. unfold strategy_post, cleanup_events.
  destruct (loop w0) as [[] w1|w1|e w1]; simpl in *.
  - destruct Hr as [Htr Hdom].
    assert (t = evs) as -> by (rewrite Htr in Ht; by apply app_inv_head in Ht).
    destruct (clean self).
    + assert (Htrace : ∃ t0, (trace w1 ++ [EvRmtree (out_dir self)]) = trace w0 ++ t0 ∧
                t0 `prefix_of` evs ++ [EvRmtree (out_dir self)] ∧
                (true = false → fs w1 = replay t0 (fs w0) ∧
                                Forall (λ e, is_removal e = false) t0)).
      { exists (evs ++ [EvRmtree (out_dir self)]).
        rewrite Htr, <- app_assoc. by split_and!. }
      unfold rmtree. destruct (fs w1 !! norm (out_dir self)) as [[| |]|] eqn:E;
        simpl; split_and!; try done; eauto.
      * exists (evs ++ [EvRmtree (out_dir self)]).
        rewrite Htr, <- app_assoc. by split_and!.
      * by rewrite Htr, <- app_assoc.
      * intros _ q Hq. by apply remove_tree_below.
    + simpl; split_and!; try done; eauto.
      * exists evs. rewrite app_nil_r. by split_and!.
      * by rewrite app_nil_r.
  - by destruct (Hx w1).
  - split_and!; try done; eauto.
    exists t. split_and!; [done|by apply prefix_app_r|].
    intros _. split; [done|]. by eapply prefix_Forall.
Qed.

(** [_read_yuv] and [_read_y] as wholes. *)
Lemma _read_yuv_post self inp w0 :
  strategy_post (yuv_loop_events self inp) yuv_channels self w0 (_read_yuv self inp w0).
Proof.
  apply cleanup_post.
  - apply for_each_post, _read_yuv_frame_post.
  - apply frame_events_no_rmtree, yuv_frame_events_no_rmtree.
Qed.

Lemma _read_y_post self inp w0 :
  strategy_post (y_loop_events self inp) y_channels self w0 (_read_y self inp w0).
Proof.
  apply cleanup_post.
  - apply for_each_post, _read_y_frame_post.
  - apply frame_events_no_rmtree, y_frame_events_no_rmtree.
Qed.

End Loops.

(** ** Dispatch and construction *)

Section Construction.
Context `{External}.

Lemma ext_get_file_extension self : ext self = get_file_extension (input self).
Proof. reflexivity. Qed.

Lemma _read_yuv_branch self w :
  ext self = "yuv" → _read self w = _read_yuv self (input self) w.
Proof.
  intros He. unfold _read. rewrite He. simpl.
  rewrite bind_unfold. destruct (_read_yuv self (input self) w) as [[] ?| |]; done.
Qed.

Lemma _read_y_branch self w :
  ext self = "y" → _read self w = _read_y self (input self) w.
Proof.
  intros He. unfold _read. rewrite He. simpl.
  rewrite !bind_unfold. simpl. rewrite bind_unfold.
  destruct (_read_y self (input self) w) as [[] ?| |]; done.
Qed.

Lemma _read_mp4_branch self w :
  ext self = "mp4" →
  _read self w = (call (Argv (ffmpeg_args self));; _read_yuv self (out_yuv self)) w.
Proof. intros He. unfold _read. by rewrite He. Qed.

Lemma _read_no_branch self w : ¬ supported (ext self) → _read self w = Returned () w.
Proof.
  intros Hn. unfold _read.
  destruct (String.eqb_spec (ext self) "yuv") as [E|_]; [destruct Hn; by left|].
  destruct (String.eqb_spec (ext self) "y") as [E|_]; [destruct Hn; by right; left|].
  destruct (String.eqb_spec (ext self) "mp4") as [E|_]; [destruct Hn; by right; right|].
  done.
Qed.

Lemma supported_dec e : supported e ∨ ¬ supported e.
Proof.
  unfold supported.
  destruct (decide (e = "yuv")), (decide (e = "y")), (decide (e = "mp4")); tauto.
Qed.

(** The transcoding step in front of the raw read leaves
    [self.frames] alone and adds one call. *)
Lemma mp4_post self w0 :
  strategy_post (EvCall (Argv (ffmpeg_args self)) :: yuv_loop_events self (out_yuv self))
    yuv_channels self w0
    ((call (Argv (ffmpeg_args self));; _read_yuv self (out_yuv self)) w0).
Proof.
  rewrite bind_unfold. unfold call at 1.
  set (w0' := World _ _ _).
  destruct (_read_yuv_post self (out_yuv self) w0')
    as (Hx & (t & Ht & Hp & Hfs) & Hg & Hk & Hr).
  unfold strategy_post. split_and!; [done| |done|done|].
  - exists (EvCall (Argv (ffmpeg_args self)) :: t). split_and!.
    + rewrite Ht. simpl. by rewrite <- app_assoc.
    + by apply (prefix_app [_]).
    + intros Hc. destruct (Hfs Hc) as [-> ?]. split; [done|]. by constructor.
  - destruct (_read_yuv self (out_yuv self) w0') as [[] w1| |]; [|done..].
    destruct Hr as (Htr & Hdom & Hrm). split_and!; [|done|done].
    rewrite Htr. simpl. by rewrite <- app_assoc.
Qed.

(** [__init__] up to the test of line 54, and from there on. *)
Lemma construct_unfold disk input_file size' start' end' fps' out_dir' clean' :
  construct disk input_file size' start' end' fps' out_dir' clean' =
  let self := Self input_file out_dir' size' start' end' fps' clean' in
  let w0 := after_setup disk out_dir' in
  if end' - start' <=? 0
  then Exited (World (fs w0) ∅ (trace w0 ++ [EvPrint range_error; EvExit]))
  else match _read self w0 with
       | Returned _ w => Returned self w
       | Exited w => Exited w
       | Raised e w => Raised e w
       end.
Proof.
  unfold construct, __init__, after_setup, n_frames, path_exists, makedirs,
    reset_frames, print, log, sys_exit. simpl.
  rewrite !bind_unfold. simpl.
  destruct (os_path_exists disk out_dir'); simpl; rewrite !bind_unfold; simpl;
    destruct (end' - start' <=? 0); simpl; try done;
    rewrite ?bind_unfold; by destruct (_read _ _).
Qed.

Lemma after_setup_frames disk dir : frames (after_setup disk dir) = ∅.
Proof. unfold after_setup. by destruct (os_path_exists disk dir). Qed.

Lemma after_setup_exists disk dir : os_path_exists (fs (after_setup disk dir)) dir = true.
Proof.
  unfold after_setup. destruct (os_path_exists disk dir) eqn:E; simpl; [done|].
  apply os_makedirs_exists.
Qed.

Lemma after_setup_replay disk dir :
  fs (after_setup disk dir) = replay (trace (after_setup disk dir)) disk.
Proof. unfold after_setup. by destruct (os_path_exists disk dir). Qed.

(** Whatever the extension, [_read] meets the part of
    [strategy_post] that does not depend on the branch taken. *)
Lemma _read_post self w0 :
  ∃ evs chans,
    (supported (ext self) → strategy_post evs chans self w0 (_read self w0)) ∧
    (¬ supported (ext self) → _read self w0 = Returned () w0) ∧
    (ext self = "yuv" → evs = yuv_loop_events self (input self) ∧ chans = yuv_channels) ∧
    (ext self = "y" → evs = y_loop_events self (input self) ∧ chans = y_channels) ∧
    (ext self = "mp4" →
       evs = EvCall (Argv (ffmpeg_args self)) :: yuv_loop_events self (out_yuv self) ∧
       chans = yuv_channels).
Proof.
  destruct (decide (ext self = "yuv")) as [E|N1].
  { exists (yuv_loop_events self (input self)), yuv_channels.
    rewrite _read_yuv_branch by done. split_and!; try (rewrite E; done).
    - intros _. apply _read_yuv_post.
    - intros []. by left. }
  destruct (decide (ext self = "y")) as [E|N2].
  { exists (y_loop_events self (input self)), y_channels.
    rewrite _read_y_branch by done. split_and!; try (rewrite E; done).
    - intros _. apply _read_y_post.
    - intros []. by right; left. }
  destruct (decide (ext self = "mp4")) as [E|N3].
  { exists (EvCall (Argv (ffmpeg_args self)) :: yuv_loop_events self (out_yuv self)),
      yuv_channels.
    rewrite _read_mp4_branch by done. split_and!; try (rewrite E; done).
    - intros _. apply mp4_post.
    - intros []. by right; right. }
  exists [], ∅. split_and!; try done.
  - intros [?|[?|?]]; done.
  - intros _. apply _read_no_branch. intros [?|[?|?]]; done.
Qed.

End Construction.

(** ** The stated properties *)

Section Properties.
Context `{External}.

(** C1, as amended.  For every construction with [end > start] whose
    input has one of the extensions [yuv], [y] or [mp4] and that
    returns, the key set of the frame store is exactly the integers
    of [[start, end)]: every index of the range is a key and no other
    integer is. *)
Theorem C1_frame_store_keys disk input_file size' start' end' fps' out_dir' clean' r w :
  supported (get_file_extension input_file) →
  start' < end' →
  construct disk input_file size' start' end' fps' out_dir' clean' = Returned r w →
  ∀ k, k ∈ dom (frames w) ↔ start' ≤ k < end'.
Proof.
  intros Hs Hlt. rewrite construct_unfold. simpl.
  destruct (Z.leb_spec (end' - start') 0) as [?|_]; [lia|].
  set (self := Self _ _ _ _ _ _ _). set (w0 := after_setup _ _).
  destruct (_read_post self w0) as (evs & chans & Hpost & _).
  specialize (Hpost Hs). destruct Hpost as (_ & _ & _ & _ & Hr).
  destruct (_read self w0) as [[] w1| |]; [|done..].
  intros [= <- <-] k. destruct Hr as (_ & Hdom & _).
  rewrite Hdom. unfold w0. rewrite after_setup_frames, dom_empty_L.
  rewrite elem_of_union, elem_of_list_to_set. unfold range. rewrite elem_of_seqZ.
  simpl. split; [intros [[]%elem_of_empty|?]; lia | intros ?; right; lia].
Qed.

(** C2.  Every frame in the frame store of a reader built from a
    [yuv] or [mp4] input has exactly the channel keys y, u and v; one
    built from a [y] input has exactly the key y.  This holds of the
    store however the construction ends. *)
Theorem C2_channel_keys disk input_file size' start' end' fps' out_dir' clean' idx fr :
  frames (final (construct disk input_file size' start' end' fps' out_dir' clean')) !! idx
    = Some fr →
  (get_file_extension input_file = "yuv" ∨ get_file_extension input_file = "mp4" →
     dom fr = {[ "y"; "u"; "v" ]}) ∧
  (get_file_extension input_file = "y" → dom fr = {[ "y" ]}).
Proof.
  rewrite construct_unfold. simpl.
  destruct (end' - start' <=? 0); [simpl; by rewrite lookup_empty|].
  set (self := Self _ _ _ _ _ _ _). set (w0 := after_setup _ _).
  destruct (_read_post self w0) as (evs & chans & Hpost & _ & Hyuv & Hy & Hmp4).
  assert (Hfin : final (match _read self w0 with
                        | Returned _ w => Returned self w
                        | Exited w => Exited w
                        | Raised e w => Raised e w
                        end) = final (_read self w0)) by by destruct (_read self w0).
  rewrite Hfin. clear Hfin. intros Hfr.
  assert (Hgrow : supported (ext self) → dom fr = chans).
  { intros Hs. destruct (Hpost Hs) as (_ & _ & Hg & _).
    destruct (Hg idx fr Hfr) as [Hold|?]; [|done].
    unfold w0 in Hold. by rewrite after_setup_frames, lookup_empty in Hold. }
  split.
  - intros [E|E].
    + destruct (Hyuv E) as [_ ->]. apply Hgrow. by left.
    + destruct (Hmp4 E) as [_ ->]. apply Hgrow. by right; right.
  - intros E. destruct (Hy E) as [_ ->]. apply Hgrow. by right; left.
Qed.

(** [_read] never calls [sys.exit]. *)
Lemma _read_never_exits self w0 w1 : _read self w0 ≠ Exited w1.
Proof.
  destruct (_read_post self w0) as (evs & chans & Hpost & Hnone & _).
  destruct (supported_dec (ext self)) as [Hs|Hn].
  - destruct (Hpost Hs) as (Hx & _). apply Hx.
  - by rewrite (Hnone Hn).
Qed.

(** The construction that fails the test of line 54. *)
Lemma construct_invalid_range disk input_file size' start' end' fps' out_dir' clean' :
  end' ≤ start' →
  construct disk input_file size' start' end' fps' out_dir' clean' =
  Exited (World (fs (after_setup disk out_dir')) ∅
                (trace (after_setup disk out_dir') ++ [EvPrint range_error; EvExit])).
Proof.
  intros Hr. rewrite construct_unfold. simpl.
  destruct (Z.leb_spec (end' - start') 0) as [_|?]; [done|lia].
Qed.

(** C3.  A construction with [end <= start] prints the message and
    exits: it ends in [sys.exit], and up to then it has called no
    converter, loaded no image and stored no frame; all it has done
    is create the output directory if that was missing.  A
    construction with [end > start] does not exit. *)
Theorem C3_invalid_range_is_fatal disk input_file size' start' end' fps' out_dir' clean' :
  (end' ≤ start' →
     construct disk input_file size' start' end' fps' out_dir' clean' =
     Exited (World (fs (after_setup disk out_dir')) ∅
                   (trace (after_setup disk out_dir') ++ [EvPrint range_error; EvExit]))) ∧
  (start' < end' →
     ∀ w, construct disk input_file size' start' end' fps' out_dir' clean' ≠ Exited w).
Proof.
  split; intros Hr; [by apply construct_invalid_range|].
  rewrite construct_unfold. simpl.
  destruct (Z.leb_spec (end' - start') 0) as [?|_]; [lia|]. intros w.
  set (self := Self _ _ _ _ _ _ _). set (w0 := after_setup _ _).
  destruct (_read self w0) as [|w'|] eqn:E; [done| |done].
  by destruct (_read_never_exits self w0 w').
Qed.

(** C4, as amended.  When cleanup is enabled and the input has one
    of the extensions [yuv], [y] or [mp4], the output directory does
    not exist once the construction has returned. *)
Theorem C4_cleanup_removes_out_dir disk input_file size' start' end' fps' out_dir' r w :
  supported (get_file_extension input_file) →
  construct disk input_file size' start' end' fps' out_dir' true = Returned r w →
  os_path_exists (fs w) out_dir' = false.
Proof.
  intros Hs. rewrite construct_unfold. simpl.
  destruct (end' - start' <=? 0); [done|].
  set (self := Self _ _ _ _ _ _ _). set (w0 := after_setup _ _).
  destruct (_read_post self w0) as (evs & chans & Hpost & _).
  destruct (Hpost Hs) as (_ & _ & _ & _ & Hr).
  destruct (_read self w0) as [[] w1| |]; [|done..].
  intros [= <- <-]. destruct Hr as (_ & _ & Hrm).
  apply os_path_exists_false, (Hrm eq_refl), below_refl.
Qed.

(** C5.  For an input whose extension is none of [yuv], [y] and
    [mp4], a construction with [end > start] returns without error:
    the frame store is empty, and no converter was called and no
    image loaded; the only thing done is the creation of the output
    directory if it was missing. *)
Theorem C5_unsupported_extension_is_empty
    disk input_file size' start' end' fps' out_dir' clean' :
  ¬ supported (get_file_extension input_file) →
  start' < end' →
  construct disk input_file size' start' end' fps' out_dir' clean' =
    Returned (Self input_file out_dir' size' start' end' fps' clean')
             (after_setup disk out_dir') ∧
  frames (after_setup disk out_dir') = ∅ ∧
  trace (after_setup disk out_dir') `prefix_of` [EvMakedirs out_dir'].
Proof.
  intros Hn Hlt. rewrite construct_unfold. simpl.
  destruct (Z.leb_spec (end' - start') 0) as [?|_]; [lia|].
  rewrite _read_no_branch by done. split_and!; [done|apply after_setup_frames|].
  unfold after_setup. destruct (os_path_exists disk out_dir'); simpl.
  - apply prefix_nil.
  - done.
Qed.


(** What one returning turn of each loop did: the converter ran on
    the disk the turn found, the images were loaded from the disk it
    left and stored under the index. *)
Lemma _read_yuv_frame_returns self inp idx w0 r w1 :
  _read_yuv_frame self inp idx w0 = Returned r w1 →
  ∃ w h y u v,
    dims self = Some (w, h) ∧
    fs w1 = subprocess_call (Shell (converter_cmd "yuv_to_png.sh" self inp idx w h)) (fs w0) ∧
    fs w1 !! norm (out_dir self +:+ str idx +:+ "_y.png") = Some (ImageFile y) ∧
    fs w1 !! norm (out_dir self +:+ str idx +:+ "_u.png") = Some (ImageFile u) ∧
    fs w1 !! norm (out_dir self +:+ str idx +:+ "_v.png") = Some (ImageFile v) ∧
    frames w1 = <[idx := <["v" := v]> (<["u" := u]> (<["y" := y]> ∅))]> (frames w0).
Proof.
  unfold _read_yuv_frame, dims, subscript.
  destruct (size self) as [xs|]; [|done].
  destruct (xs !! 0%nat) as [w|]; [|done].
  destruct (xs !! 1%nat) as [h|]; [|done].
  unfold call, imread, store, raise, mbind, M_bind, mret, M_ret. simpl.
  repeat (case_match; simplify_eq/=); intros ?; simplify_eq/=.
  eexists _, _, _, _, _. split_and!; first [reflexivity | eassumption].
Qed.

Lemma _read_y_frame_returns self inp idx w0 r w1 :
  _read_y_frame self inp idx w0 = Returned r w1 →
  ∃ w h y,
    dims self = Some (w, h) ∧
    fs w1 = subprocess_call (Shell (converter_cmd "y_to_png.sh" self inp idx w h)) (fs w0) ∧
    fs w1 !! norm (out_dir self +:+ "/" +:+ str idx +:+ "_y.png") = Some (ImageFile y) ∧
    frames w1 = <[idx := <["y" := y]> ∅]> (frames w0).
Proof.
  unfold _read_y_frame, dims, subscript.
  destruct (size self) as [xs|]; [|done].
  destruct (xs !! 0%nat) as [w|]; [|done].
  destruct (xs !! 1%nat) as [h|]; [|done].
  unfold call, imread, store, raise, mbind, M_bind, mret, M_ret. simpl.
  repeat (case_match; simplify_eq/=); intros ?; simplify_eq/=.
  eexists _, _, _. split_and!; first [reflexivity | eassumption].
Qed.

Lemma range_increasing a b i j x y :
  range a b !! i = Some x → range a b !! j = Some y → (i < j)%nat → x < y.
Proof.
  unfold range. intros [-> _]%lookup_seqZ [-> _]%lookup_seqZ. lia.
Qed.

Lemma strategy_trace evs chans self w0 o :
  strategy_post evs chans self w0 o →
  ∃ t, trace (final o) = trace w0 ++ t ∧
       t `prefix_of` evs ++ cleanup_events self ∧
       (∀ r w1, o = Returned r w1 → t = evs ++ cleanup_events self).
Proof.
  intros (_ & (t & Ht & Hp & _) & _ & _ & Hr). exists t. split_and!; [done..|].
  intros r w1 ->. simpl in *. destruct Hr as [Htr _]. rewrite Htr in Ht.
  by apply app_inv_head in Ht.
Qed.

(** The indices a loop walks: the one in turn [i] is [start + i], for
    as long as that is below [end]. *)
Lemma range_lookup a b i x :
  range a b !! i = Some x ↔ x = a + Z.of_nat i ∧ x < b.
Proof. unfold range. rewrite lookup_seqZ. split; intros [-> ?]; split; lia. Qed.

Lemma range_elem_of a b k : k ∈ range a b ↔ a ≤ k < b.
Proof. unfold range. rewrite elem_of_seqZ. lia. Qed.

(** A read that returns has stored every index of the range. *)
Lemma strategy_keys evs chans self w0 r w1 :
  strategy_post evs chans self w0 (Returned r w1) →
  ∀ k, start self ≤ k < end_ self → k ∈ dom (frames w1).
Proof.
  intros (_ & _ & _ & _ & _ & Hdom & _) k Hk. rewrite Hdom.
  apply elem_of_union. right. by apply elem_of_list_to_set, range_elem_of.
Qed.

(** The calls of one returning turn, in the order they were made. *)
Lemma _read_yuv_frame_trace self inp idx w0 r w1 a b :
  dims self = Some (a, b) →
  _read_yuv_frame self inp idx w0 = Returned r w1 →
  trace w1 = trace w0 ++
    [ EvCall (Shell ("bash bash_utils/yuv_to_png.sh " +:+ inp +:+ " " +:+ out_dir self
                       +:+ " " +:+ str idx +:+ " bash_utils/convert_img.py "
                       +:+ str a +:+ " " +:+ str b));
      EvImread (out_dir self +:+ str idx +:+ "_y.png");
      EvImread (out_dir self +:+ str idx +:+ "_u.png");
      EvImread (out_dir self +:+ str idx +:+ "_v.png");
      EvStore idx ].
Proof.
  intros Hd Hr. destruct (_read_yuv_frame_post self inp idx w0) as (_ & _ & _ & _ & Hp).
  rewrite Hr in Hp. destruct Hp as [-> _]. unfold yuv_frame_events. by rewrite Hd.
Qed.

Lemma _read_y_frame_trace self inp idx w0 r w1 a b :
  dims self = Some (a, b) →
  _read_y_frame self inp idx w0 = Returned r w1 →
  trace w1 = trace w0 ++
    [ EvCall (Shell ("bash bash_utils/y_to_png.sh " +:+ inp +:+ " " +:+ out_dir self
                       +:+ " " +:+ str idx +:+ " bash_utils/convert_img.py "
                       +:+ str a +:+ " " +:+ str b));
      EvImread (out_dir self +:+ "/" +:+ str idx +:+ "_y.png");
      EvStore idx ].
Proof.
  intros Hd Hr. destruct (_read_y_frame_post self inp idx w0) as (_ & _ & _ & _ & Hp).
  rewrite Hr in Hp. destruct Hp as [-> _]. unfold y_frame_events. by rewrite Hd.
Qed.

(** C8.  The frames are processed one after the other, in increasing
    order of index: the index of turn [i] is [start + i], for as long
    as that is below [end].  Whatever the outcome of a read, the calls
    it made are an initial part of the sequence "converter for the
    index, loads for the index, store for the index" taken over these
    indices in order, followed by the cleanup; a read that returns
    made all of them and has stored every index from [start] up to
    [end - 1].  A turn that completes has called the converter script
    with the input path, the output directory, the index and the two
    sizes, then loaded its images from the disk that call left, then
    stored them under the index, and nothing else: the converter had
    finished before the loads, and the store of one index precedes
    every call for the next. *)
Theorem C8_frames_in_sequence self inp w0 :
  (∀ i x, range (start self) (end_ self) !! i = Some x
          ↔ x = start self + Z.of_nat i ∧ x < end_ self) ∧
  (∃ t, trace (final (_read_yuv self inp w0)) = trace w0 ++ t ∧
        t `prefix_of` concat (yuv_frame_events self inp <$> range (start self) (end_ self))
                        ++ cleanup_events self ∧
        (∀ r w1, _read_yuv self inp w0 = Returned r w1 →
           t = concat (yuv_frame_events self inp <$> range (start self) (end_ self))
                 ++ cleanup_events self ∧
           ∀ k, start self ≤ k < end_ self → k ∈ dom (frames w1))) ∧
  (∃ t, trace (final (_read_y self inp w0)) = trace w0 ++ t ∧
        t `prefix_of` concat (y_frame_events self inp <$> range (start self) (end_ self))
                        ++ cleanup_events self ∧
        (∀ r w1, _read_y self inp w0 = Returned r w1 →
           t = concat (y_frame_events self inp <$> range (start self) (end_ self))
                 ++ cleanup_events self ∧
           ∀ k, start self ≤ k < end_ self → k ∈ dom (frames w1))) ∧
  (∀ i j x y, range (start self) (end_ self) !! i = Some x →
              range (start self) (end_ self) !! j = Some y → (i < j)%nat → x < y) ∧
  (∀ idx w r w1, _read_yuv_frame self inp idx w = Returned r w1 →
     ∃ a b y u v,
       dims self = Some (a, b) ∧
       trace w1 = trace w ++
         [ EvCall (Shell ("bash bash_utils/yuv_to_png.sh " +:+ inp +:+ " " +:+ out_dir self
                            +:+ " " +:+ str idx +:+ " bash_utils/convert_img.py "
                            +:+ str a +:+ " " +:+ str b));
           EvImread (out_dir self +:+ str idx +:+ "_y.png");
           EvImread (out_dir self +:+ str idx +:+ "_u.png");
           EvImread (out_dir self +:+ str idx +:+ "_v.png");
           EvStore idx ] ∧
       fs w1 = subprocess_call
                 (Shell ("bash bash_utils/yuv_to_png.sh " +:+ inp +:+ " " +:+ out_dir self
                           +:+ " " +:+ str idx +:+ " bash_utils/convert_img.py "
                           +:+ str a +:+ " " +:+ str b)) (fs w) ∧
       fs w1 !! norm (out_dir self +:+ str idx +:+ "_y.png") = Some (ImageFile y) ∧
       fs w1 !! norm (out_dir self +:+ str idx +:+ "_u.png") = Some (ImageFile u) ∧
       fs w1 !! norm (out_dir self +:+ str idx +:+ "_v.png") = Some (ImageFile v) ∧
       frames w1 = <[idx := <["v" := v]> (<["u" := u]> (<["y" := y]> ∅))]> (frames w)) ∧
  (∀ idx w r w1, _read_y_frame self inp idx w = Returned r w1 →
     ∃ a b y,
       dims self = Some (a, b) ∧
       trace w1 = trace w ++
         [ EvCall (Shell ("bash bash_utils/y_to_png.sh " +:+ inp +:+ " " +:+ out_dir self
                            +:+ " " +:+ str idx +:+ " bash_utils/convert_img.py "
                            +:+ str a +:+ " " +:+ str b));
           EvImread (out_dir self +:+ "/" +:+ str idx +:+ "_y.png");
           EvStore idx ] ∧
       fs w1 = subprocess_call
                 (Shell ("bash bash_utils/y_to_png.sh " +:+ inp +:+ " " +:+ out_dir self
                           +:+ " " +:+ str idx +:+ " bash_utils/convert_img.py "
                           +:+ str a +:+ " " +:+ str b)) (fs w) ∧
       fs w1 !! norm (out_dir self +:+ "/" +:+ str idx +:+ "_y.png") = Some (ImageFile y) ∧
       frames w1 = <[idx := <["y" := y]> ∅]> (frames w)).
Proof.
  split_and!.
  - apply range_lookup.
  - destruct (strategy_trace _ _ _ _ _ (_read_yuv_post self inp w0)) as (t & Ht & Hp & Hr).
    exists t. split_and!; [done..|]. intros r w1 E. split; [by eapply Hr|].
    pose proof (_read_yuv_post self inp w0) as Hpost. rewrite E in Hpost.
    by eapply strategy_keys.
  - destruct (strategy_trace _ _ _ _ _ (_read_y_post self inp w0)) as (t & Ht & Hp & Hr).
    exists t. split_and!; [done..|]. intros r w1 E. split; [by eapply Hr|].
    pose proof (_read_y_post self inp w0) as Hpost. rewrite E in Hpost.
    by eapply strategy_keys.
  - apply range_increasing.
  - intros idx w r w1 Hr.
    destruct (_read_yuv_frame_returns _ _ _ _ _ _ Hr) as (a & b & y & u & v & Hd & ?).
    exists a, b, y, u, v. split; [done|]. split; [|done].
    by eapply _read_yuv_frame_trace.
  - intros idx w r w1 Hr.
    destruct (_read_y_frame_returns _ _ _ _ _ _ Hr) as (a & b & y & Hd & ?).
    exists a, b, y. split; [done|]. split; [|done].
    by eapply _read_y_frame_trace.
Qed.

(** With cleanup disabled the reader removes nothing: however the
    construction ends, the disk is the initial disk after the
    directory creation and the external calls of the trace. *)
Lemma construct_disk_replay disk input_file size' start' end' fps' out_dir' :
  let o := construct disk input_file size' start' end' fps' out_dir' false in
  fs (final o) = replay (trace (final o)) disk ∧
  Forall (λ e, is_removal e = false) (trace (final o)).
Proof.
  intros o. unfold o. rewrite construct_unfold. simpl.
  set (self := Self _ _ _ _ _ _ _). set (w0 := after_setup _ _).
  assert (Hw0 : fs w0 = replay (trace w0) disk ∧
                Forall (λ e, is_removal e = false) (trace w0)).
  { unfold w0, after_setup. destruct (os_path_exists disk out_dir'); simpl; split;
      done || by repeat constructor. }
  destruct Hw0 as [Hfs0 Hno0].
  destruct (end' - start' <=? 0); simpl.
  { rewrite replay_app. split; [by rewrite <- Hfs0|].
    apply Forall_app. split; [done|by repeat constructor]. }
  destruct (_read_post self w0) as (evs & chans & Hpost & Hnone & _).
  assert (Hfin : final (match _read self w0 with
                        | Returned _ w => Returned self w
                        | Exited w => Exited w
                        | Raised e w => Raised e w
                        end) = final (_read self w0)) by by destruct (_read self w0).
  rewrite Hfin. clear Hfin.
  destruct (supported_dec (ext self)) as [Hs|Hn].
  - destruct (Hpost Hs) as (_ & (t & Ht & _ & Hfs) & _).
    destruct (Hfs eq_refl) as [Hrep Hno]. rewrite Ht, replay_app, <- Hfs0.
    split; [done|]. by apply Forall_app.
  - by rewrite (Hnone Hn).
Qed.

(** C9.  The output directory is created, when missing, before the
    frame range is tested.  A construction with [end <= start]
    therefore exits with the output directory on disk; when the
    directory was missing, its creation is the first thing in the
    trace, ahead of the message and the exit, and the disk is no
    longer the one the construction started from. *)
Theorem C9_out_dir_created_before_range_check
    disk input_file size' start' end' fps' out_dir' clean' :
  end' ≤ start' →
  ∃ w, construct disk input_file size' start' end' fps' out_dir' clean' = Exited w ∧
       os_path_exists (fs w) out_dir' = true ∧
       (os_path_exists disk out_dir' = false →
          trace w = [EvMakedirs out_dir'; EvPrint range_error; EvExit] ∧
          fs w = os_makedirs out_dir' disk ∧
          fs w ≠ disk).
Proof.
  intros Hle.
  eexists. split; [by apply construct_invalid_range|]. simpl. split; [apply after_setup_exists|].
  intros Hno. unfold after_setup. rewrite Hno. simpl. split_and!; [done..|].
  by apply os_makedirs_changes.
Qed.

(** The file name of the transcoded file holds no separator. *)
Lemma out_yuv_name self :
  let name := item_first (split "." (item_last (split "/" (input self)))) +:+ ".yuv" in
  out_yuv self = out_dir self +:+ name ∧ lacks "/" name = true ∧ name ≠ EmptyString.
Proof.
  intros name. split_and!; [done| |].
  - unfold name. rewrite lacks_app. apply andb_true_iff. split; [|done].
    apply item_first_lacks, split_fields_lack. right.
    apply item_last_lacks, split_fields_lack. by left.
  - unfold name. by destruct (item_first _).
Qed.

(** Where the output directory string ends in a separator, the
    concatenation of line 108 names an entry of the directory.  For an
    [mp4] input the transcoder is then told to write the intermediate
    file to [out_dir], followed by the base name of the input up to
    its first dot, followed by [.yuv], and this path lies inside the
    output directory.  When cleanup is enabled and the construction
    returns, the file is gone with the directory.  When cleanup is
    disabled the reader removes nothing: the disk is what the
    directory creation and the external programs made of it, so the
    file stays where the transcoder put it. *)
Lemma out_yuv_with_separator
    disk input_file size' start' end' fps' out_dir' clean' :
  let self := Self input_file out_dir' size' start' end' fps' clean' in
  let o := construct disk input_file size' start' end' fps' out_dir' clean' in
  get_file_extension input_file = "mp4" →
  ends_with "/" out_dir' = true →
  ffmpeg_args self !! 6%nat = Some (out_yuv self) ∧
  out_yuv self
    = out_dir' +:+ item_first (split "." (item_last (split "/" input_file))) +:+ ".yuv" ∧
  inside (norm out_dir') (norm (out_yuv self)) ∧
  (clean' = true → ∀ r w, o = Returned r w → os_path_exists (fs w) (out_yuv self) = false) ∧
  (clean' = false →
     fs (final o) = replay (trace (final o)) disk ∧
     Forall (λ e, is_removal e = false) (trace (final o))).
Proof.
  intros self o Hext Hdir.
  destruct (out_yuv_name self) as (Hname & Hlacks & Hne).
  assert (Hin : inside (norm out_dir') (norm (out_yuv self))).
  { rewrite Hname. simpl. rewrite norm_child by done. apply inside_child. }
  split_and!; [done..| |].
  - intros -> r w. unfold o. rewrite construct_unfold. simpl.
    destruct (end' - start' <=? 0); [done|].
    fold self. set (w0 := after_setup _ _).
    destruct (_read_post self w0) as (evs & chans & Hpost & _).
    assert (Hs : supported (ext self)) by (right; right; exact Hext).
    destruct (Hpost Hs) as (_ & _ & _ & _ & Hr).
    destruct (_read self w0) as [[] w1| |]; [|done..].
    intros [= _ <-]. destruct Hr as (_ & _ & Hrm).
    apply os_path_exists_false, (Hrm eq_refl), Hin.
  - intros ->. apply construct_disk_replay.
Qed.

(** *** When the construction returns

    The outcome depends on what the external converter leaves on disk.
    A converter that writes the images where the loop loads them, and
    leaves the output directory a directory, makes the construction
    return. *)

Lemma for_each_returns (body : Z → M unit) l w0 :
  (∀ idx w, idx ∈ l → ∃ w', body idx w = Returned () w') →
  ∃ w', for_each l body w0 = Returned () w'.
Proof.
  revert w0. induction l as [|idx l IH]; intros w0 Hbody; [by eexists|].
  change (for_each (idx :: l) body w0) with ((body idx ;; for_each l body) w0).
  rewrite bind_unfold.
  destruct (Hbody idx w0) as [w1 ->]; [by left|].
  apply IH. intros i w Hi. apply Hbody. by right.
Qed.

(** What a returning turn preserves, a returning loop preserves. *)
Lemma for_each_invariant (I : world → Prop) (body : Z → M unit) l w0 w' :
  (∀ idx w w1, I w → body idx w = Returned () w1 → I w1) →
  I w0 → for_each l body w0 = Returned () w' → I w'.
Proof.
  intros Hbody. revert w0. induction l as [|idx l IH]; intros w0 HI.
  - by intros [= <-].
  - change (for_each (idx :: l) body w0) with ((body idx ;; for_each l body) w0).
    rewrite bind_unfold. destruct (body idx w0) as [[] w1| |] eqn:E; [|done..].
    apply IH. by eapply Hbody.
Qed.

Lemma _read_yuv_frame_runs self inp idx w0 w h y u v :
  dims self = Some (w, h) →
  subprocess_call (Shell (converter_cmd "yuv_to_png.sh" self inp idx w h)) (fs w0)
    !! norm (out_dir self +:+ str idx +:+ "_y.png") = Some (ImageFile y) →
  subprocess_call (Shell (converter_cmd "yuv_to_png.sh" self inp idx w h)) (fs w0)
    !! norm (out_dir self +:+ str idx +:+ "_u.png") = Some (ImageFile u) →
  subprocess_call (Shell (converter_cmd "yuv_to_png.sh" self inp idx w h)) (fs w0)
    !! norm (out_dir self +:+ str idx +:+ "_v.png") = Some (ImageFile v) →
  ∃ w1, _read_yuv_frame self inp idx w0 = Returned () w1.
Proof.
  unfold dims, _read_yuv_frame, subscript.
  destruct (size self) as [xs|]; [|done].
  destruct (xs !! 0%nat) as [a|]; [|done].
  destruct (xs !! 1%nat) as [b|]; [|done].
  intros [= -> ->] Hy Hu Hv.
  unfold call, imread, store, mbind, M_bind, mret, M_ret. simpl.
  rewrite Hy. simpl. rewrite Hu. simpl. rewrite Hv. by eexists.
Qed.

Lemma _read_y_frame_runs self inp idx w0 w h y :
  dims self = Some (w, h) →
  subprocess_call (Shell (converter_cmd "y_to_png.sh" self inp idx w h)) (fs w0)
    !! norm (out_dir self +:+ "/" +:+ str idx +:+ "_y.png") = Some (ImageFile y) →
  ∃ w1, _read_y_frame self inp idx w0 = Returned () w1.
Proof.
  unfold dims, _read_y_frame, subscript.
  destruct (size self) as [xs|]; [|done].
  destruct (xs !! 0%nat) as [a|]; [|done].
  destruct (xs !! 1%nat) as [b|]; [|done].
  intros [= -> ->] Hy.
  unfold call, imread, store, mbind, M_bind, mret, M_ret. simpl.
  rewrite Hy. by eexists.
Qed.

(** A loop whose turns return, followed by the cleanup, returns when
    the output directory is a directory and the turns leave it one. *)
Lemma cleanup_returns (body : Z → M unit) self w0 :
  (∀ idx w, ∃ w', body idx w = Returned () w') →
  (clean self = true →
     fs w0 !! norm (out_dir self) = Some Dir ∧
     ∀ idx w w1, fs w !! norm (out_dir self) = Some Dir →
                 body idx w = Returned () w1 →
                 fs w1 !! norm (out_dir self) = Some Dir) →
  ∃ w', (for_each (range (start self) (end_ self)) body;;
         if clean self then rmtree (out_dir self) else mret ()) w0 = Returned () w'.
Proof.
  intros Hruns Hdir.
  destruct (for_each_returns body (range (start self) (end_ self)) w0) as [w1 Hw1];
    [by intros|].
  rewrite bind_unfold, Hw1. destruct (clean self); [|by eexists].
  destruct (Hdir eq_refl) as [Hd0 Hkeep].
  assert (Hd : fs w1 !! norm (out_dir self) = Some Dir).
  { by apply (for_each_invariant (λ w, fs w !! norm (out_dir self) = Some Dir) body
                (range (start self) (end_ self)) w0 w1). }
  unfold rmtree. rewrite Hd. by eexists.
Qed.

Lemma after_setup_dir disk dir :
  disk !! norm dir = None ∨ disk !! norm dir = Some Dir →
  fs (after_setup disk dir) !! norm dir = Some Dir.
Proof.
  intros Hd. unfold after_setup. destruct (os_path_exists disk dir) eqn:E; simpl.
  - apply os_path_exists_true in E as [n Hn]. destruct Hd; congruence.
  - apply os_path_exists_false in E. by apply os_makedirs_dir.
Qed.

(** A [yuv] input: the construction returns when the converter writes
    the three images of every index where [_read_yuv] loads them and,
    if cleanup is enabled, the output path is free or a directory and
    the converter leaves it a directory. *)
Theorem construct_yuv_returns disk input_file w h size' start' end' fps' out_dir' clean' :
  let self := Self input_file out_dir' size' start' end' fps' clean' in
  let convert idx := subprocess_call
                       (Shell (converter_cmd "yuv_to_png.sh" self input_file idx w h)) in
  get_file_extension input_file = "yuv" →
  start' < end' →
  dims self = Some (w, h) →
  (∀ idx d, ∃ y u v,
     convert idx d !! norm (out_dir' +:+ str idx +:+ "_y.png") = Some (ImageFile y) ∧
     convert idx d !! norm (out_dir' +:+ str idx +:+ "_u.png") = Some (ImageFile u) ∧
     convert idx d !! norm (out_dir' +:+ str idx +:+ "_v.png") = Some (ImageFile v)) →
  (clean' = true →
     (disk !! norm out_dir' = None ∨ disk !! norm out_dir' = Some Dir) ∧
     ∀ idx d, d !! norm out_dir' = Some Dir → convert idx d !! norm out_dir' = Some Dir) →
  ∃ w1, construct disk input_file size' start' end' fps' out_dir' clean' = Returned self w1.
Proof.
  intros self convert Hext Hlt Hdims Hconv Hdir. rewrite construct_unfold. simpl. fold self.
  destruct (Z.leb_spec (end' - start') 0) as [?|_]; [lia|].
  set (w0 := after_setup _ _). rewrite _read_yuv_branch by done.
  destruct (cleanup_returns (_read_yuv_frame self input_file) self w0) as [w1 Hw1].
  - intros idx w'. destruct (Hconv idx (fs w')) as (y & u & v & Hy & Hu & Hv).
    by eapply _read_yuv_frame_runs.
  - intros Hc. destruct (Hdir Hc) as [Hd0 Hkeep]. split; [by apply after_setup_dir|].
    intros idx w' w1 Hd Hr.
    destruct (_read_yuv_frame_returns _ _ _ _ _ _ Hr) as (a & b & _ & _ & _ & E & -> & _).
    rewrite Hdims in E. injection E as <- <-. by apply Hkeep.
  - unfold _read_yuv. simpl in *. rewrite Hw1. by eexists.
Qed.

(** A [y] input, likewise. *)
Theorem construct_y_returns disk input_file w h size' start' end' fps' out_dir' clean' :
  let self := Self input_file out_dir' size' start' end' fps' clean' in
  let convert idx := subprocess_call
                       (Shell (converter_cmd "y_to_png.sh" self input_file idx w h)) in
  get_file_extension input_file = "y" →
  start' < end' →
  dims self = Some (w, h) →
  (∀ idx d, ∃ y,
     convert idx d !! norm (out_dir' +:+ "/" +:+ str idx +:+ "_y.png")
       = Some (ImageFile y)) →
  (clean' = true →
     (disk !! norm out_dir' = None ∨ disk !! norm out_dir' = Some Dir) ∧
     ∀ idx d, d !! norm out_dir' = Some Dir → convert idx d !! norm out_dir' = Some Dir) →
  ∃ w1, construct disk input_file size' start' end' fps' out_dir' clean' = Returned self w1.
Proof.
  intros self convert Hext Hlt Hdims Hconv Hdir. rewrite construct_unfold. simpl. fold self.
  destruct (Z.leb_spec (end' - start') 0) as [?|_]; [lia|].
  set (w0 := after_setup _ _). rewrite _read_y_branch by done.
  destruct (cleanup_returns (_read_y_frame self input_file) self w0) as [w1 Hw1].
  - intros idx w'. destruct (Hconv idx (fs w')) as (y & Hy).
    by eapply _read_y_frame_runs.
  - intros Hc. destruct (Hdir Hc) as [Hd0 Hkeep]. split; [by apply after_setup_dir|].
    intros idx w' w1 Hd Hr.
    destruct (_read_y_frame_returns _ _ _ _ _ _ Hr) as (a & b & _ & E & -> & _).
    rewrite Hdims in E. injection E as <- <-. by apply Hkeep.
  - unfold _read_y. simpl in *. rewrite Hw1. by eexists.
Qed.

End Properties.

(** ** Runs on examples *)

Lemma C1_frame_store_keys_witness :
  supported (get_file_extension "videos/clip.yuv") ∧ 0 < 2 ∧
  ∃ r w, run_demo "/" "videos/clip.yuv" (Some [4; 4]) 0 2 10 "out/" false = Returned r w ∧
         ∀ k, k ∈ dom (frames w) ↔ 0 ≤ k < 2.
Proof.
  split; [by left|]. split; [lia|].
  eexists _, _. split; [vm_compute; reflexivity|].
  eapply (@C1_frame_store_keys (demo_external "/") empty_disk "videos/clip.yuv"
            (Some [4; 4]) 0 2 10 "out/" false).
  - by left.
  - lia.
  - vm_compute; reflexivity.
Defined.

(** The claim C1 as stated fails: an input with another extension and
    the range [[0, 2)] gives a reader whose frame store has no key. *)
Lemma C1_counterexample :
  ∃ r w, run_demo "/" "videos/clip.avi" (Some [4; 4]) 0 2 10 "out/" false = Returned r w ∧
         0 < 2 ∧ ¬ (∀ k, k ∈ dom (frames w) ↔ 0 ≤ k < 2).
Proof.
  eexists _, _. split; [vm_compute; reflexivity|]. split; [lia|].
  intros Hall. destruct (Hall 0) as [_ Hin].
  assert (Hk : 0 ≤ 0 < 2) by lia. apply Hin in Hk.
  apply elem_of_dom in Hk as [fr Hfr]. vm_compute in Hfr. discriminate.
Qed.

Lemma C2_channel_keys_witness :
  (∃ fr, frames (final (run_demo "/" "videos/clip.yuv" (Some [4; 4]) 0 2 10 "out/" false)) !! 1
           = Some fr ∧ dom fr = {[ "y"; "u"; "v" ]}) ∧
  (∃ fr, frames (final (run_demo "/" "videos/clip.y" (Some [4; 4]) 0 2 10 "out/" false)) !! 1
           = Some fr ∧ dom fr = {[ "y" ]}).
Proof.
  split.
  - eexists. split; [vm_compute; reflexivity|].
    eapply (proj1 (@C2_channel_keys (demo_external "/") empty_disk "videos/clip.yuv"
                     (Some [4; 4]) 0 2 10 "out/" false 1 _ _)).
    by left.
  - eexists. split; [vm_compute; reflexivity|].
    eapply (proj2 (@C2_channel_keys (demo_external "/") empty_disk "videos/clip.y"
                     (Some [4; 4]) 0 2 10 "out/" false 1 _ _)).
    reflexivity.
  Unshelve. all: vm_compute; reflexivity.
Defined.

Lemma C3_invalid_range_is_fatal_witness :
  (2 ≤ 2 ∧
   run_demo "/" "videos/clip.yuv" (Some [4; 4]) 2 2 10 "out/" true =
   Exited (World (os_makedirs "out/" empty_disk) ∅
                 [EvMakedirs "out/"; EvPrint range_error; EvExit])) ∧
  (2 < 3 ∧
   ∀ w, run_demo "/" "videos/clip.yuv" (Some [4; 4]) 2 3 10 "out/" true ≠ Exited w).
Proof.
  split; (split; [lia|]).
  - apply (proj1 (@C3_invalid_range_is_fatal (demo_external "/") empty_disk
                    "videos/clip.yuv" (Some [4; 4]) 2 2 10 "out/" true)). lia.
  - apply (proj2 (@C3_invalid_range_is_fatal (demo_external "/") empty_disk
                    "videos/clip.yuv" (Some [4; 4]) 2 3 10 "out/" true)). lia.
Defined.

Lemma C4_cleanup_removes_out_dir_witness :
  supported (get_file_extension "videos/clip.y") ∧
  ∃ r w, run_demo "/" "videos/clip.y" (Some [4; 4]) 0 2 10 "out" true = Returned r w ∧
         os_path_exists (fs w) "out" = false.
Proof.
  split; [by right; left|].
  eexists _, _. split; [vm_compute; reflexivity|].
  eapply (@C4_cleanup_removes_out_dir (demo_external "/") empty_disk "videos/clip.y"
            (Some [4; 4]) 0 2 10 "out").
  - by right; left.
  - vm_compute; reflexivity.
Defined.

(** The claim C4 as stated fails: with cleanup enabled and an input of
    another extension the construction returns and the output
    directory it created is still there. *)
Lemma C4_counterexample :
  ∃ r w, run_demo "/" "videos/clip.avi" (Some [4; 4]) 0 2 10 "out/" true = Returned r w ∧
         os_path_exists empty_disk "out/" = false ∧
         os_path_exists (fs w) "out/" = true.
Proof.
  eexists _, _. split; [vm_compute; reflexivity|]. split; vm_compute; reflexivity.
Qed.

Lemma C5_unsupported_extension_is_empty_witness :
  ¬ supported (get_file_extension "videos/clip.avi") ∧ 0 < 2 ∧
  run_demo "/" "videos/clip.avi" None 0 2 10 "out/" true =
    Returned (Self "videos/clip.avi" "out/" None 0 2 10 true)
             (World (os_makedirs "out/" empty_disk) ∅ [EvMakedirs "out/"]).
Proof.
  assert (Hn : ¬ supported (get_file_extension "videos/clip.avi")).
  { intros [E|[E|E]]; vm_compute in E; discriminate. }
  split; [done|]. split; [lia|].
  apply (proj1 (@C5_unsupported_extension_is_empty (demo_external "/") empty_disk
                  "videos/clip.avi" None 0 2 10 "out/" true Hn ltac:(lia))).
Defined.

(** C7.  The raw loop does not load the channel images from the output
    directory joined with the file name by a separator, as [_read_y]
    does and as [_clean] expects: it appends the file name to the
    directory string as it is.  With the output directory "out" the
    converter leaves "out/0_y.png" on disk, where [_clean] finds it
    and where [_read_y] loads it from; [_read_yuv] asks for
    "out0_y.png", a different path, and the construction ends in the
    load error. *)
Theorem C7_yuv_loads_without_separator :
  ∃ w, run_demo "/" "videos/clip.yuv" (Some [4; 4]) 0 1 10 "out" false
         = Raised (FileNotFoundError "out0_y.png") w ∧
       trace w = [ EvMakedirs "out";
                   EvCall (Shell ("bash bash_utils/yuv_to_png.sh videos/clip.yuv out 0 "
                                    +:+ "bash_utils/convert_img.py 4 4"));
                   EvImread "out0_y.png" ] ∧
       (∃ w2, _clean (Self "videos/clip.yuv" "out" (Some [4; 4]) 0 1 10 false) 0 w
                = Returned () w2 ∧
              trace w2 = trace w ++ [ EvRemove "out/0_y.png"; EvRemove "out/0_u.png";
                                      EvRemove "out/0_v.png" ]) ∧
       os_path_exists (fs w) "out/0_y.png" = true ∧
       os_path_exists (fs w) "out0_y.png" = false ∧
       norm "out0_y.png" ≠ norm "out/0_y.png" ∧
       (∃ r w', run_demo "/" "videos/clip.y" (Some [4; 4]) 0 1 10 "out" false = Returned r w' ∧
                trace w' = [ EvMakedirs "out";
                             EvCall (Shell ("bash bash_utils/y_to_png.sh videos/clip.y out 0 "
                                              +:+ "bash_utils/convert_img.py 4 4"));
                             EvImread "out/0_y.png"; EvStore 0 ]).
Proof.
  eexists. split; [vm_compute; reflexivity|].
  split_and!; try (vm_compute; reflexivity).
  - eexists. split; vm_compute; reflexivity.
  - intros E. vm_compute in E. discriminate.
  - eexists _, _. split; vm_compute; reflexivity.
Qed.

Lemma C8_frames_in_sequence_witness :
  ∃ r w1, @_read_yuv (demo_external "/")
            (Self "videos/clip.yuv" "out/" (Some [4; 4]) 3 5 10 true)
            "videos/clip.yuv" (World (os_makedirs "out/" empty_disk) ∅ []) = Returned r w1 ∧
          trace w1 =
            [ EvCall (Shell "bash bash_utils/yuv_to_png.sh videos/clip.yuv out/ 3 bash_utils/convert_img.py 4 4");
              EvImread "out/3_y.png"; EvImread "out/3_u.png"; EvImread "out/3_v.png";
              EvStore 3;
              EvCall (Shell "bash bash_utils/yuv_to_png.sh videos/clip.yuv out/ 4 bash_utils/convert_img.py 4 4");
              EvImread "out/4_y.png"; EvImread "out/4_u.png"; EvImread "out/4_v.png";
              EvStore 4;
              EvRmtree "out/" ] ∧
          3 ∈ dom (frames w1) ∧ 4 ∈ dom (frames w1).
Proof.
  destruct (@_read_yuv (demo_external "/")
              (Self "videos/clip.yuv" "out/" (Some [4; 4]) 3 5 10 true)
              "videos/clip.yuv" (World (os_makedirs "out/" empty_disk) ∅ [])) as [r w1|w1|e w1] eqn:E;
    [|vm_compute in E; discriminate E..].
  exists r, w1. split; [reflexivity|].
  destruct (@C8_frames_in_sequence (demo_external "/")
              (Self "videos/clip.yuv" "out/" (Some [4; 4]) 3 5 10 true)
              "videos/clip.yuv" (World (os_makedirs "out/" empty_disk) ∅ []))
    as (_ & (t & Ht & _ & Hfull) & _).
  rewrite E in Ht, Hfull. simpl in Ht.
  destruct (Hfull r w1 eq_refl) as [Htr Hkeys].
  split; [|split; apply Hkeys; simpl; lia].
  rewrite Ht, Htr. vm_compute. reflexivity.
Defined.

Lemma C9_out_dir_created_before_range_check_witness :
  3 ≤ 3 ∧
  ∃ w, run_demo "/" "videos/clip.yuv" (Some [4; 4]) 3 3 10 "out/" true = Exited w ∧
       os_path_exists (fs w) "out/" = true ∧
       (os_path_exists empty_disk "out/" = false →
          trace w = [EvMakedirs "out/"; EvPrint range_error; EvExit] ∧
          fs w = os_makedirs "out/" empty_disk ∧
          fs w ≠ empty_disk).
Proof.
  split; [lia|].
  apply (@C9_out_dir_created_before_range_check (demo_external "/") empty_disk
           "videos/clip.yuv" (Some [4; 4]) 3 3 10 "out/" true). lia.
Defined.

Example out_yuv_with_separator_example :
  get_file_extension "videos/clip.mp4" = "mp4" ∧ ends_with "/" "out/" = true ∧
  inside (norm "out/") (norm "out/clip.yuv") ∧
  (∀ r w, run_demo "/" "videos/clip.mp4" (Some [4; 4]) 0 1 10 "out/" true = Returned r w →
          os_path_exists (fs w) "out/clip.yuv" = false).
Proof.
  split; [reflexivity|]. split; [reflexivity|].
  destruct (@out_yuv_with_separator (demo_external "/") empty_disk
              "videos/clip.mp4" (Some [4; 4]) 0 1 10 "out/" true eq_refl eq_refl)
    as (_ & _ & Hin & Hgone & _).
  split; [exact Hin|]. intros r w Hr. exact (Hgone eq_refl r w Hr).
Qed.

(** With cleanup disabled the transcoded file of that run stays where
    the transcoder put it. *)
Example mp4_keeps_transcoded_file :
  os_path_exists
    (fs (final (run_demo "/" "videos/clip.mp4" (Some [4; 4]) 0 1 10 "out/" false)))
    "out/clip.yuv" = true.
Proof. vm_compute; reflexivity. Qed.

(** ** Further properties of [get_file_extension] *)

(** X1.  The extension never holds a dot or a path separator,
    whatever the path. *)
Theorem get_file_extension_plain file_path :
  lacks "." (get_file_extension file_path) = true ∧
  lacks "/" (get_file_extension file_path) = true.
Proof.
  unfold get_file_extension. split.
  - apply item_last_lacks, split_fields_lack. by left.
  - apply item_last_lacks, split_fields_lack. right.
    apply item_last_lacks, split_fields_lack. by left.
Qed.

(** X2.  A path that ends in a dot followed by a word without dot or
    separator has that word as its extension, wherever else the path
    has dots and separators. *)
Theorem get_file_extension_of_suffix base e :
  lacks "." e = true → lacks "/" e = true →
  get_file_extension (base +:+ "." +:+ e) = e.
Proof. apply get_file_extension_suffix. Qed.

Lemma get_file_extension_of_suffix_witness :
  lacks "." "yuv" = true ∧ lacks "/" "yuv" = true ∧
  get_file_extension ("../clips.v2/akiyo.cif" +:+ "." +:+ "yuv") = "yuv".
Proof.
  split; [reflexivity|]. split; [reflexivity|].
  apply (get_file_extension_of_suffix "../clips.v2/akiyo.cif" "yuv"); reflexivity.
Defined.

(** X3.  A base name without a dot is its own extension: the file
    [videos/yuv] has the extension [yuv] and is read as raw video. *)
Theorem get_file_extension_no_dot dir name :
  lacks "." name = true → lacks "/" name = true →
  get_file_extension name = name ∧
  get_file_extension (dir +:+ "/" +:+ name) = name.
Proof.
  intros Hdot Hslash. unfold get_file_extension.
  change (dir +:+ "/" +:+ name) with (dir +:+ String "/" name).
  rewrite item_last_split_sep by done.
  rewrite (split_lacks "/" name) by done.
  change (item_last [name]) with name.
  by rewrite (split_lacks "." name).
Qed.

Lemma get_file_extension_no_dot_witness :
  lacks "." "yuv" = true ∧ lacks "/" "yuv" = true ∧
  get_file_extension "yuv" = "yuv" ∧
  get_file_extension ("my.videos" +:+ "/" +:+ "yuv") = "yuv".
Proof.
  split; [reflexivity|]. split; [reflexivity|].
  apply (get_file_extension_no_dot "my.videos" "yuv"); reflexivity.
Defined.

(** X4.  A path that ends in a separator or in a dot has the empty
    extension. *)
Theorem get_file_extension_trailing p :
  get_file_extension (p +:+ "/") = EmptyString ∧
  get_file_extension (p +:+ ".") = EmptyString.
Proof.
  unfold get_file_extension. split.
  - by rewrite (item_last_split_sep "/" p EmptyString).
  - rewrite (item_last_split_app "/" p ".") by done.
    by rewrite (item_last_split_sep "." _ EmptyString).
Qed.

(** ** Decimal numerals *)

Lemma lacks_cons c a s : lacks c (String a s) = negb (Ascii.eqb a c) && lacks c s.
Proof. reflexivity. Qed.

Lemma lacks_pretty_N_go c x s :
  (∀ d, pretty_N_char d ≠ c) → lacks c s = true → lacks c (pretty_N_go x s) = true.
Proof.
  intros Hc. revert s. induction (N.lt_wf_0 x) as [x _ IH]. intros s Hs.
  destruct (decide (0 < x)%N) as [Hx|Hx].
  - rewrite pretty_N_go_step by done. apply IH.
    + by apply N.div_lt.
    + rewrite lacks_cons, Hs, andb_true_r. apply negb_true_iff, Ascii.eqb_neq, Hc.
  - assert (x = 0%N) as -> by lia. by rewrite pretty_N_go_0.
Qed.

(** [str(n)] is made of digits and a minus sign only. *)
Lemma str_lacks c n :
  (∀ d, pretty_N_char d ≠ c) → c ≠ "-"%char → lacks c (str n) = true.
Proof.
  intros Hc Hm. unfold str, pretty, pretty_Z.
  assert (Hpos : ∀ p : positive, lacks c (pretty p) = true).
  { intros p. unfold pretty, pretty_positive, pretty, pretty_N.
    case_decide; [done|]. by apply lacks_pretty_N_go. }
  destruct n as [|p|p].
  - change (lacks c "0") with (negb (Ascii.eqb "0" c) && true).
    rewrite andb_true_r. apply negb_true_iff, Ascii.eqb_neq. apply (Hc 0%N).
  - apply Hpos.
  - change ("-" +:+ pretty p) with (String "-" (pretty p)).
    rewrite lacks_cons, Hpos, andb_true_r. apply negb_true_iff, Ascii.eqb_neq.
    by intros <-.
Qed.

Lemma not_digit c :
  (c =? "0")%char = false → (c =? "1")%char = false → (c =? "2")%char = false →
  (c =? "3")%char = false → (c =? "4")%char = false → (c =? "5")%char = false →
  (c =? "6")%char = false → (c =? "7")%char = false → (c =? "8")%char = false →
  (c =? "9")%char = false → ∀ d, pretty_N_char d ≠ c.
Proof.
  intros H0 H1 H2 H3 H4 H5 H6 H7 H8 H9 d <-. unfold pretty_N_char in *.
  repeat case_match; simplify_eq/=.
Qed.

Lemma str_lacks_slash n : lacks "/" (str n) = true.
Proof. apply str_lacks; [by apply not_digit|done]. Qed.

Lemma str_lacks_space n : lacks " " (str n) = true.
Proof. apply str_lacks; [by apply not_digit|done]. Qed.

(** ** The intermediate image paths *)

Lemma length_append s t : String.length (s +:+ t) = (String.length s + String.length t)%nat.
Proof. induction s as [|a s IH]; [done|]. rewrite append_cons. simpl. by rewrite IH. Qed.

Lemma append_inj_r s1 s2 t : s1 +:+ t = s2 +:+ t → s1 = s2.
Proof.
  revert s2. induction s1 as [|a s1 IH]; intros [|b s2] Heq; [done| | |].
  - apply (f_equal String.length) in Heq.
    rewrite append_nil, append_cons in Heq. simpl in Heq.
    rewrite length_append in Heq. lia.
  - apply (f_equal String.length) in Heq.
    rewrite append_nil, append_cons in Heq. simpl in Heq.
    rewrite length_append in Heq. lia.
  - rewrite !append_cons in Heq. injection Heq as -> Heq. f_equal. by apply IH.
Qed.

Lemma append_nonempty s t : t ≠ EmptyString → s +:+ t ≠ EmptyString.
Proof. intros Ht. by destruct s. Qed.

Lemma is_abs_app d x : d ≠ EmptyString → is_abs (d +:+ x) = is_abs d.
Proof. by destruct d. Qed.

(** A name joined to a directory string by a separator is an entry of
    that directory. *)
Lemma norm_join d name :
  d ≠ EmptyString → lacks "/" name = true → name ≠ EmptyString →
  norm (d +:+ String "/" name) = ((norm d).1, (norm d).2 ++ [name]).
Proof.
  intros Hd Hl Hne. unfold norm. simpl. rewrite is_abs_app by done. f_equal.
  rewrite split_app_sep, filter_app, (split_lacks _ name) by done.
  by rewrite (filter_cons_True _ name), filter_nil.
Qed.

(** A name appended to a path string lengthens its last component. *)
Lemma norm_append d t :
  lacks "/" t = true → t ≠ EmptyString →
  ∃ l x, ∀ t', lacks "/" t' = true → t' ≠ EmptyString →
               (norm (d +:+ t')).2 = l ++ [x +:+ t'].
Proof.
  intros _ _. destruct (split_snoc_app "/" d) as (l & x & _ & Happ).
  exists (filter (λ c, c ≠ EmptyString) l), x. intros t' Hl Hne.
  unfold norm. simpl. rewrite Happ, filter_app by done.
  rewrite (filter_cons_True _ (x +:+ t')) by by apply append_nonempty.
  by rewrite filter_nil.
Qed.

Lemma channel_name_plain idx ch :
  ch ∈ ["_y.png"; "_u.png"; "_v.png"] →
  lacks "/" (str idx +:+ ch) = true ∧ str idx +:+ ch ≠ EmptyString.
Proof.
  intros Hch. split.
  - rewrite lacks_app, str_lacks_slash. simpl.
    repeat (apply elem_of_cons in Hch as [->|Hch]; [done|]). by apply elem_of_nil in Hch.
  - apply append_nonempty.
    repeat (apply elem_of_cons in Hch as [->|Hch]; [done|]). by apply elem_of_nil in Hch.
Qed.

(** X5.  The paths [_read_y] loads and [_clean] removes, which join
    the output directory and the file name with a separator, lie
    inside the output directory whenever its string is not empty.  The
    paths [_read_yuv] loads, which have no separator of their own, are
    those same files when the output directory string ends in a
    separator. *)
Theorem channel_paths_in_out_dir self idx ch :
  ch ∈ ["_y.png"; "_u.png"; "_v.png"] →
  (out_dir self ≠ EmptyString →
     inside (norm (out_dir self)) (norm (out_dir self +:+ "/" +:+ str idx +:+ ch))) ∧
  (ends_with "/" (out_dir self) = true →
     norm (out_dir self +:+ str idx +:+ ch) = norm (out_dir self +:+ "/" +:+ str idx +:+ ch)).
Proof.
  intros Hch. destruct (channel_name_plain idx ch Hch) as [Hl Hne].
  change (out_dir self +:+ "/" +:+ str idx +:+ ch)
    with (out_dir self +:+ String "/" (str idx +:+ ch)).
  split.
  - intros Hd. rewrite norm_join by done. apply inside_child.
  - intros He. rewrite norm_child by done. rewrite norm_join; [done| |done..].
    intros E. by rewrite E in He.
Qed.

Lemma channel_paths_in_out_dir_witness :
  "_u.png" ∈ ["_y.png"; "_u.png"; "_v.png"] ∧
  ends_with "/" "out/" = true ∧
  inside (norm "out/") (norm ("out/" +:+ "/" +:+ str 7 +:+ "_u.png")) ∧
  norm ("out/" +:+ str 7 +:+ "_u.png") = norm ("out/" +:+ "/" +:+ str 7 +:+ "_u.png").
Proof.
  assert (Hch : "_u.png" ∈ ["_y.png"; "_u.png"; "_v.png"]) by (right; left).
  split; [exact Hch|]. split; [reflexivity|].
  destruct (channel_paths_in_out_dir (Self "a.yuv" "out/" None 0 8 10 false) 7 "_u.png" Hch)
    as [Hin Heq].
  split; [by apply Hin|by apply Heq].
Defined.

(** X6.  Two different frame indices never share an intermediate
    image: the paths loaded for them, by either loop, are different
    files, whatever the output directory. *)
Theorem channel_paths_distinct self i j ch :
  ch ∈ ["_y.png"; "_u.png"; "_v.png"] →
  i ≠ j →
  norm (out_dir self +:+ str i +:+ ch) ≠ norm (out_dir self +:+ str j +:+ ch) ∧
  norm (out_dir self +:+ "/" +:+ str i +:+ ch) ≠ norm (out_dir self +:+ "/" +:+ str j +:+ ch).
Proof.
  intros Hch Hij.
  destruct (channel_name_plain i ch Hch) as [Hli Hni].
  destruct (channel_name_plain j ch Hch) as [Hlj Hnj].
  assert (Hinj : ∀ d, norm (d +:+ str i +:+ ch) ≠ norm (d +:+ str j +:+ ch)).
  { intros d Heq. destruct (norm_append d _ Hli Hni) as (l & x & Happ).
    apply (f_equal snd) in Heq. rewrite !Happ in Heq by done.
    apply app_inv_head in Heq. injection Heq as Heq.
    apply String.app_inj, append_inj_r in Heq. by apply (inj pretty) in Heq. }
  split; [apply Hinj|].
  change (out_dir self +:+ "/" +:+ str i +:+ ch)
    with (out_dir self +:+ String "/" (str i +:+ ch)).
  change (out_dir self +:+ "/" +:+ str j +:+ ch)
    with (out_dir self +:+ String "/" (str j +:+ ch)).
  rewrite <- (app_String_assoc (out_dir self) "/" (str i +:+ ch)).
  rewrite <- (app_String_assoc (out_dir self) "/" (str j +:+ ch)).
  apply Hinj.
Qed.

Lemma channel_paths_distinct_witness :
  "_y.png" ∈ ["_y.png"; "_u.png"; "_v.png"] ∧ 1 ≠ 11 ∧
  norm ("out" +:+ str 1 +:+ "_y.png") ≠ norm ("out" +:+ str 11 +:+ "_y.png") ∧
  norm ("out" +:+ "/" +:+ str 1 +:+ "_y.png") ≠ norm ("out" +:+ "/" +:+ str 11 +:+ "_y.png").
Proof.
  assert (Hch : "_y.png" ∈ ["_y.png"; "_u.png"; "_v.png"]) by left.
  split; [exact Hch|]. split; [lia|].
  apply (channel_paths_distinct (Self "a.yuv" "out" None 0 12 10 false) 1 11 "_y.png" Hch).
  lia.
Defined.

(** ** [_clean] *)

Lemma guarded_remove p w :
  ((y ← isfile p; if (y : bool) then remove p else mret ()) : M unit) w
  = Returned () (unlink p w).
Proof.
  unfold isfile, remove, unlink, mbind, M_bind, mret, M_ret.
  destruct (fs w !! norm p) as [[| |]|] eqn:E; simpl; by rewrite ?E.
Qed.

Lemma guarded_remove_then {B} p (k : M B) w :
  ((y ← isfile p; (if (y : bool) then remove p else mret ());; k) : M B) w
  = k (unlink p w).
Proof.
  unfold isfile, remove, unlink, mbind, M_bind, mret, M_ret.
  destruct (fs w !! norm p) as [[| |]|] eqn:E; simpl; by rewrite ?E.
Qed.

Lemma _clean_unfold self idx w :
  _clean self idx w =
  Returned () (unlink (out_dir self +:+ "/" +:+ str idx +:+ "_v.png")
              (unlink (out_dir self +:+ "/" +:+ str idx +:+ "_u.png")
              (unlink (out_dir self +:+ "/" +:+ str idx +:+ "_y.png") w))).
Proof.
  unfold _clean.
  rewrite (guarded_remove_then (out_dir self +:+ "/" +:+ str idx +:+ "_y.png")).
  rewrite (guarded_remove_then (out_dir self +:+ "/" +:+ str idx +:+ "_u.png")).
  apply guarded_remove.
Qed.

Lemma unlink_frames p w : frames (unlink p w) = frames w.
Proof. unfold unlink. by destruct (is_file _). Qed.

Lemma unlink_lookup p w q :
  fs (unlink p w) !! q =
  if decide (q = norm p) then (if is_file (fs w !! q) then None else fs w !! q)
  else fs w !! q.
Proof.
  unfold unlink. case_decide as Hq.
  - subst q. destruct (is_file (fs w !! norm p)); [|done]. simpl. apply lookup_delete_eq.
  - destruct (is_file (fs w !! norm p)); [|done]. simpl. by apply lookup_delete_ne.
Qed.

(** What the three guarded removals leave of every entry of the disk. *)
Lemma _clean_lookup self idx w w' q :
  _clean self idx w = Returned () w' →
  fs w' !! q =
  if (bool_decide (q = norm (out_dir self +:+ "/" +:+ str idx +:+ "_y.png"))
      || bool_decide (q = norm (out_dir self +:+ "/" +:+ str idx +:+ "_u.png"))
      || bool_decide (q = norm (out_dir self +:+ "/" +:+ str idx +:+ "_v.png")))
     && is_file (fs w !! q)
  then None else fs w !! q.
Proof.
  rewrite _clean_unfold. intros [= <-]. rewrite !unlink_lookup.
  destruct (fs w !! q) as [[| |]|]; repeat case_decide;
    rewrite ?bool_decide_eq_true_2, ?bool_decide_eq_false_2 by done; done.
Qed.

Lemma is_file_strip x : is_file (if is_file x then None else x) = false.
Proof. by destruct x as [[| |]|]. Qed.

Lemma _clean_no_files self idx w w' :
  _clean self idx w = Returned () w' →
  is_file (fs w' !! norm (out_dir self +:+ "/" +:+ str idx +:+ "_y.png")) = false ∧
  is_file (fs w' !! norm (out_dir self +:+ "/" +:+ str idx +:+ "_u.png")) = false ∧
  is_file (fs w' !! norm (out_dir self +:+ "/" +:+ str idx +:+ "_v.png")) = false.
Proof.
  intros Hc. rewrite !(_clean_lookup self idx w w' _ Hc).
  split_and!; repeat case_bool_decide; simpl; try congruence; apply is_file_strip.
Qed.

(** X7.  [_clean] never raises, whatever is on disk: each removal is
    guarded by [os.path.isfile].  When it has returned, none of the
    three channel images of the index is a regular file any more. *)
Theorem _clean_removes_channel_files self idx w :
  ∃ w', _clean self idx w = Returned () w' ∧
        ∀ ch, ch ∈ ["_y.png"; "_u.png"; "_v.png"] →
              is_file (fs w' !! norm (out_dir self +:+ "/" +:+ str idx +:+ ch)) = false.
Proof.
  eexists. split; [apply _clean_unfold|]. intros ch Hch.
  destruct (_clean_no_files self idx w _ (_clean_unfold self idx w)) as (Hy & Hu & Hv).
  repeat (apply elem_of_cons in Hch as [->|Hch]; [done|]). by apply elem_of_nil in Hch.
Qed.

(** X8.  [_clean] touches nothing but regular files at the three
    channel paths of the index: the frame store, every other entry of
    the disk, and a directory that happens to sit at one of the three
    paths are as before. *)
Theorem _clean_keeps_the_rest self idx w w' :
  _clean self idx w = Returned () w' →
  frames w' = frames w ∧
  (∀ q, (∀ ch, ch ∈ ["_y.png"; "_u.png"; "_v.png"] →
               q ≠ norm (out_dir self +:+ "/" +:+ str idx +:+ ch)) →
        fs w' !! q = fs w !! q) ∧
  (∀ q, fs w !! q = Some Dir → fs w' !! q = Some Dir).
Proof.
  intros Hc. split_and!.
  - rewrite _clean_unfold in Hc. injection Hc as <-. by rewrite !unlink_frames.
  - intros q Hq. rewrite (_clean_lookup _ _ _ _ q Hc).
    rewrite !bool_decide_eq_false_2; [done|apply Hq..].
    + by right; right; left.
    + by right; left.
    + by left.
  - intros q Hd. rewrite (_clean_lookup _ _ _ _ q Hc), Hd. simpl.
    by rewrite andb_false_r.
Qed.

(** X9.  [_clean] is idempotent: called again on the world it left, it
    returns that world unchanged and removes nothing. *)
Theorem _clean_twice self idx w w' :
  _clean self idx w = Returned () w' → _clean self idx w' = Returned () w'.
Proof.
  intros Hc. destruct (_clean_no_files self idx w w' Hc) as (Hy & Hu & Hv).
  rewrite _clean_unfold.
  assert (Hid : ∀ p, is_file (fs w' !! norm p) = false → unlink p w' = w').
  { intros p Hp. unfold unlink. by rewrite Hp. }
  by rewrite (Hid _ Hy), (Hid _ Hu), (Hid _ Hv).
Qed.

Lemma _clean_keeps_the_rest_witness :
  ∃ w', _clean (Self "videos/clip.y" "out" (Some [4; 4]) 0 2 10 false) 0
          (final (run_demo "/" "videos/clip.y" (Some [4; 4]) 0 2 10 "out" false))
          = Returned () w' ∧
        frames w' = frames (final (run_demo "/" "videos/clip.y" (Some [4; 4]) 0 2 10 "out" false)) ∧
        fs w' !! norm "out/0_y.png" = None ∧
        fs w' !! norm "out/1_y.png" = Some (ImageFile demo_image) ∧
        fs w' !! norm "out" = Some Dir.
Proof.
  eexists. split; [vm_compute; reflexivity|].
  split; [|by vm_compute].
  apply (_clean_keeps_the_rest (Self "videos/clip.y" "out" (Some [4; 4]) 0 2 10 false) 0
           (final (run_demo "/" "videos/clip.y" (Some [4; 4]) 0 2 10 "out" false))).
  vm_compute; reflexivity.
Defined.

Lemma _clean_twice_witness :
  ∃ w', _clean (Self "videos/clip.y" "out" (Some [4; 4]) 0 2 10 false) 0
          (final (run_demo "/" "videos/clip.y" (Some [4; 4]) 0 2 10 "out" false))
          = Returned () w' ∧
        _clean (Self "videos/clip.y" "out" (Some [4; 4]) 0 2 10 false) 0 w' = Returned () w'.
Proof.
  eexists. split; [vm_compute; reflexivity|].
  apply (_clean_twice (Self "videos/clip.y" "out" (Some [4; 4]) 0 2 10 false) 0
           (final (run_demo "/" "videos/clip.y" (Some [4; 4]) 0 2 10 "out" false))).
  vm_compute; reflexivity.
Defined.


(** ** Further properties of the reader *)

Section Further.
Context `{External}.

Lemma call_then {B} c (m : M B) w :
  (call c;; m) w = m (World (subprocess_call c (fs w)) (frames w) (trace w ++ [EvCall c])).
Proof. reflexivity. Qed.

Lemma stores_app t1 t2 : stores (t1 ++ t2) = stores t1 ++ stores t2.
Proof. apply omap_app. Qed.

Lemma take_range a b n :
  (n ≤ length (range a b))%nat → take n (range a b) = seqZ a (Z.of_nat n).
Proof.
  unfold range. rewrite length_seqZ. intros Hn. apply list_eq. intros i.
  rewrite lookup_take. case_decide.
  - destruct (decide (i < Z.to_nat (b - a))%nat).
    + rewrite !lookup_seqZ_lt by lia. done.
    + lia.
  - rewrite lookup_seqZ_ge by lia. done.
Qed.

Ltac close_turn :=
  rewrite <- ?(assoc_L (++)); eexists; split; [reflexivity|]; simpl;
  first [ split; [by rewrite dom_insert_L, (comm_L (∪))|reflexivity]
        | split; reflexivity ].

Lemma _read_yuv_frame_stores self inp idx w0 :
  ∃ t, trace (final (_read_yuv_frame self inp idx w0)) = trace w0 ++ t ∧
       match _read_yuv_frame self inp idx w0 with
       | Returned _ w1 => dom (frames w1) = dom (frames w0) ∪ {[idx]} ∧ stores t = [idx]
       | o => frames (final o) = frames w0 ∧ stores t = []
       end.
Proof.
  unfold _read_yuv_frame, subscript, call, imread, store, raise, mbind, M_bind, mret, M_ret.
  destruct (size self) as [xs|]; [|exists []; by rewrite (right_id_L [] (++))].
  destruct (xs !! 0%nat) as [a|]; [|exists []; by rewrite (right_id_L [] (++))].
  destruct (xs !! 1%nat) as [b|]; [|exists []; by rewrite (right_id_L [] (++))]. simpl.
  repeat (case_match; simplify_eq/=); close_turn.
Qed.

Lemma _read_y_frame_stores self inp idx w0 :
  ∃ t, trace (final (_read_y_frame self inp idx w0)) = trace w0 ++ t ∧
       match _read_y_frame self inp idx w0 with
       | Returned _ w1 => dom (frames w1) = dom (frames w0) ∪ {[idx]} ∧ stores t = [idx]
       | o => frames (final o) = frames w0 ∧ stores t = []
       end.
Proof.
  unfold _read_y_frame, subscript, call, imread, store, raise, mbind, M_bind, mret, M_ret.
  destruct (size self) as [xs|]; [|exists []; by rewrite (right_id_L [] (++))].
  destruct (xs !! 0%nat) as [a|]; [|exists []; by rewrite (right_id_L [] (++))].
  destruct (xs !! 1%nat) as [b|]; [|exists []; by rewrite (right_id_L [] (++))]. simpl.
  repeat (case_match; simplify_eq/=); close_turn.
Qed.

(** What a loop has stored, however it ended: the indices of the
    turns it completed, an initial part of the list it walks, each
    with its assignment in the trace. *)
Lemma for_each_stores (body : Z → M unit) l w0 :
  (∀ idx w, ∃ t, trace (final (body idx w)) = trace w ++ t ∧
       match body idx w with
       | Returned _ w1 => dom (frames w1) = dom (frames w) ∪ {[idx]} ∧ stores t = [idx]
       | o => frames (final o) = frames w ∧ stores t = []
       end) →
  ∃ n t, (n ≤ length l)%nat ∧
         trace (final (for_each l body w0)) = trace w0 ++ t ∧
         stores t = take n l ∧
         dom (frames (final (for_each l body w0))) = dom (frames w0) ∪ list_to_set (take n l) ∧
         (returned (for_each l body w0) = true → n = length l).
Proof.
  intros Hbody. revert w0. induction l as [|idx l IH]; intros w0.
  - exists 0%nat, []. simpl. by rewrite (right_id_L [] (++)), (right_id_L ∅ (∪)).
  - change (for_each (idx :: l) body w0) with ((body idx ;; for_each l body) w0).
    rewrite bind_unfold. destruct (Hbody idx w0) as (t & Ht & Hb).
    destruct (body idx w0) as [[] w1|w1|e w1]; simpl in *.
    + destruct Hb as [Hd Hs].
      destruct (IH w1) as (n & t' & Hn & Ht' & Hs' & Hdom & Hr). exists (S n), (t ++ t').
      split_and!.
      * simpl; lia.
      * by rewrite Ht', Ht, (assoc_L (++)).
      * by rewrite stores_app, Hs, Hs'.
      * rewrite Hdom, Hd. simpl. by rewrite ?list_to_set_cons, (assoc_L (∪)).
      * intros Hret. by rewrite (Hr Hret).
    + destruct Hb as [Hf Hs]. exists 0%nat, t. rewrite Hf. simpl.
      rewrite (right_id_L ∅ (∪)). split_and!; [lia|done..].
    + destruct Hb as [Hf Hs]. exists 0%nat, t. rewrite Hf. simpl.
      rewrite (right_id_L ∅ (∪)). split_and!; [lia|done..].
Qed.

Lemma cleanup_stores (loop : M unit) self w0 :
  let o := (loop;; if clean self then rmtree (out_dir self) else mret ()) w0 in
  ∃ t, trace (final o) = trace (final (loop w0)) ++ t ∧ stores t = [] ∧
       frames (final o) = frames (final (loop w0)) ∧
       (returned o = true → returned (loop w0) = true).
Proof.
  intros o. unfold o. rewrite bind_unfold.
  destruct (loop w0) as [[] w1| |]; simpl;
    [|exists []; by rewrite (right_id_L [] (++))..].
  destruct (clean self); [|exists []; by rewrite (right_id_L [] (++))].
  unfold rmtree.
  destruct (fs w1 !! norm (out_dir self)) as [[| |]|]; simpl; by eexists.
Qed.

Lemma strategy_stores (body : Z → M unit) self w0 :
  (∀ idx w, ∃ t, trace (final (body idx w)) = trace w ++ t ∧
       match body idx w with
       | Returned _ w1 => dom (frames w1) = dom (frames w) ∪ {[idx]} ∧ stores t = [idx]
       | o => frames (final o) = frames w ∧ stores t = []
       end) →
  let o := (for_each (range (start self) (end_ self)) body;;
            if clean self then rmtree (out_dir self) else mret ()) w0 in
  ∃ n t, (n ≤ length (range (start self) (end_ self)))%nat ∧
         trace (final o) = trace w0 ++ t ∧
         stores t = take n (range (start self) (end_ self)) ∧
         dom (frames (final o))
           = dom (frames w0) ∪ list_to_set (take n (range (start self) (end_ self))) ∧
         (returned o = true → n = length (range (start self) (end_ self))).
Proof.
  intros Hbody o.
  destruct (cleanup_stores (for_each (range (start self) (end_ self)) body) self w0)
    as (t' & Ht' & Hs' & Hf & Hr').
  destruct (for_each_stores body (range (start self) (end_ self)) w0 Hbody)
    as (n & t & Hn & Ht & Hs & Hdom & Hr).
  exists n, (t ++ t'). unfold o. split_and!.
  - done.
  - by rewrite Ht', Ht, (assoc_L (++)).
  - by rewrite stores_app, Hs, Hs', (right_id_L [] (++)).
  - by rewrite Hf.
  - intros Hret. auto.
Qed.

Lemma _read_stores self w0 :
  ∃ n t, (n ≤ length (range (start self) (end_ self)))%nat ∧
         trace (final (_read self w0)) = trace w0 ++ t ∧
         stores t = take n (range (start self) (end_ self)) ∧
         dom (frames (final (_read self w0)))
           = dom (frames w0) ∪ list_to_set (take n (range (start self) (end_ self))) ∧
         (returned (_read self w0) = true → supported (ext self) →
            n = length (range (start self) (end_ self))).
Proof.
  destruct (decide (ext self = "yuv")) as [E|N1].
  { rewrite _read_yuv_branch by done. unfold _read_yuv.
    destruct (strategy_stores (_read_yuv_frame self (input self)) self w0)
      as (n & t & ? & ? & ? & ? & ?); [intros; apply _read_yuv_frame_stores|].
    exists n, t. split_and!; auto. }
  destruct (decide (ext self = "y")) as [E|N2].
  { rewrite _read_y_branch by done. unfold _read_y.
    destruct (strategy_stores (_read_y_frame self (input self)) self w0)
      as (n & t & ? & ? & ? & ? & ?); [intros; apply _read_y_frame_stores|].
    exists n, t. split_and!; auto. }
  destruct (decide (ext self = "mp4")) as [E|N3].
  { rewrite _read_mp4_branch by done. rewrite bind_unfold. unfold call at 1.
    match goal with |- context [_read_yuv _ _ ?w] =>
      destruct (strategy_stores (_read_yuv_frame self (out_yuv self)) self w)
        as (n & t & Hn & Ht & Hs & Hdom & Hr); [intros; apply _read_yuv_frame_stores|]
    end.
    unfold _read_yuv.
    exists n, (EvCall (Argv (ffmpeg_args self)) :: t). split_and!; auto.
    rewrite Ht. simpl. by rewrite <- (assoc_L (++)). }
  rewrite _read_no_branch by (intros [?|[?|?]]; done).
  exists 0%nat, []. simpl. rewrite (right_id_L [] (++)), (right_id_L ∅ (∪)).
  split_and!; [lia|done..|].
  intros _ [?|[?|?]]; done.
Qed.

Lemma after_setup_stores disk out_dir' : stores (trace (after_setup disk out_dir')) = [].
Proof. unfold after_setup. by destruct (os_path_exists disk out_dir'). Qed.

(** X10.  However a construction ends, the assignments
    [self.frames[idx] = frame] it made are those of the indices
    [start], [start + 1], ... up to a bound [k] within the range, in
    this order, and the keys of the frame store are exactly these
    indices: no assignment is lost and no key comes from elsewhere.
    A construction that returns, with one of the extensions [yuv],
    [y], [mp4], went through the whole range: [k] is [end].  So a
    construction that raises in the turn of an index has stored, and
    keeps, the frames of all the indices before it. *)
Theorem frame_store_is_a_prefix disk input_file size' start' end' fps' out_dir' clean' :
  let o := construct disk input_file size' start' end' fps' out_dir' clean' in
  ∃ k, start' ≤ k ≤ Z.max start' end' ∧
       stores (trace (final o)) = seqZ start' (k - start') ∧
       (∀ i, i ∈ dom (frames (final o)) ↔ start' ≤ i < k) ∧
       (returned o = true → supported (get_file_extension input_file) → k = end').
Proof.
  intros o. unfold o. rewrite construct_unfold. simpl.
  destruct (Z.leb_spec (end' - start') 0) as [Hle|Hlt]; simpl.
  { exists start'. split; [lia|]. rewrite stores_app, after_setup_stores, Z.sub_diag.
    split; [done|]. split; [|done]. intros i. rewrite dom_empty_L.
    split; [by intros ?%elem_of_empty|lia]. }
  set (self := Self _ _ _ _ _ _ _). set (w0 := after_setup _ _).
  destruct (_read_stores self w0) as (n & t & Hn & Ht & Hs & Hdom & Hr).
  assert (Hfin : final (match _read self w0 with
                        | Returned _ w => Returned self w
                        | Exited w => Exited w
                        | Raised e w => Raised e w
                        end) = final (_read self w0)) by by destruct (_read self w0).
  assert (Hret : returned (match _read self w0 with
                           | Returned _ w => Returned self w
                           | Exited w => Exited w
                           | Raised e w => Raised e w
                           end) = returned (_read self w0)) by by destruct (_read self w0).
  rewrite Hfin, Hret, Hdom, Ht, stores_app, Hs. unfold w0 at 1 2.
  rewrite after_setup_frames, after_setup_stores, dom_empty_L.
  rewrite take_range by done. simpl.
  unfold range in *. rewrite length_seqZ in Hn, Hr. subst self. simpl in *.
  exists (start' + Z.of_nat n). split; [lia|]. split; [f_equal; lia|]. split.
  - intros i. rewrite elem_of_union, elem_of_list_to_set, elem_of_seqZ. split.
    + intros [[]%elem_of_empty|?]. lia.
    + intros Hi. right. lia.
  - intros Hret' Hsup. rewrite ext_get_file_extension in Hr. simpl in Hr.
    rewrite (Hr Hret' Hsup). lia.
Qed.

Lemma replay_snoc_silent t e disk :
  is_external e = false → (∀ p, e ≠ EvMakedirs p) → replay (t ++ [e]) disk = replay t disk.
Proof.
  intros He Hm. rewrite replay_app. destruct e; simpl in *; try done.
  by destruct (Hm p).
Qed.

(** The disk a read strategy leaves: what the calls of its trace made
    of the disk, less the output directory when the cleanup ran. *)
Lemma strategy_disk (loop : M unit) evs chans keys self w0 :
  loop_post evs chans keys w0 (loop w0) →
  let o := (loop;; if clean self then rmtree (out_dir self) else mret ()) w0 in
  ∃ t, trace (final o) = trace w0 ++ t ∧
       fs (final o) = if returned o && clean self
                      then remove_tree (norm (out_dir self)) (replay t (fs w0))
                      else replay t (fs w0).
Proof.
  intros (_ & (t & Ht & _ & Hfs) & _). simpl. rewrite bind_unfold.
  destruct (loop w0) as [[] w1|w1|e w1]; simpl in *; [|by exists t..].
  destruct (clean self).
  - unfold rmtree. exists (t ++ [EvRmtree (out_dir self)]).
    rewrite replay_snoc_silent by done. rewrite app_assoc, <- Ht, <- Hfs.
    by destruct (fs w1 !! norm (out_dir self)) as [[| |]|].
  - by exists t.
Qed.

Lemma construct_disk_shape disk input_file size' start' end' fps' out_dir' clean' :
  let o := construct disk input_file size' start' end' fps' out_dir' clean' in
  fs (final o) =
  if returned o && clean' && bool_decide (supported (get_file_extension input_file))
  then remove_tree (norm out_dir') (replay (trace (final o)) disk)
  else replay (trace (final o)) disk.
Proof.
  intros o. unfold o. rewrite construct_unfold. simpl.
  set (self := Self _ _ _ _ _ _ _). set (w0 := after_setup _ _).
  assert (Hw0 : fs w0 = replay (trace w0) disk) by apply after_setup_replay.
  destruct (end' - start' <=? 0); simpl.
  { rewrite replay_app. by rewrite <- Hw0. }
  assert (Hshape : ∃ t, trace (final (_read self w0)) = trace w0 ++ t ∧
            fs (final (_read self w0)) =
            if returned (_read self w0) && clean' && bool_decide (supported (ext self))
            then remove_tree (norm out_dir') (replay t (fs w0))
            else replay t (fs w0)).
  { destruct (decide (ext self = "yuv")) as [E|N1].
    { rewrite _read_yuv_branch by done.
      destruct (strategy_disk (for_each (range (start self) (end_ self))
                                 (_read_yuv_frame self (input self))) _ _ _ self w0
                  (for_each_post _ _ _ (_read_yuv_frame_post self (input self)) _ w0))
        as (t & Ht & Hfs).
      exists t. split; [done|]. rewrite bool_decide_eq_true_2 by by left.
      by rewrite andb_true_r. }
    destruct (decide (ext self = "y")) as [E|N2].
    { rewrite _read_y_branch by done.
      destruct (strategy_disk (for_each (range (start self) (end_ self))
                                 (_read_y_frame self (input self))) _ _ _ self w0
                  (for_each_post _ _ _ (_read_y_frame_post self (input self)) _ w0))
        as (t & Ht & Hfs).
      exists t. split; [done|]. rewrite bool_decide_eq_true_2 by by right; left.
      by rewrite andb_true_r. }
    destruct (decide (ext self = "mp4")) as [E|N3].
    { rewrite _read_mp4_branch by done. rewrite call_then.
      set (w1 := World _ _ _).
      destruct (strategy_disk (for_each (range (start self) (end_ self))
                                 (_read_yuv_frame self (out_yuv self))) _ _ _ self w1
                  (for_each_post _ _ _ (_read_yuv_frame_post self (out_yuv self)) _ w1))
        as (t & Ht & Hfs).
      exists (EvCall (Argv (ffmpeg_args self)) :: t). split.
      - unfold _read_yuv. rewrite Ht. simpl. by rewrite <- app_assoc.
      - unfold _read_yuv. rewrite Hfs. rewrite bool_decide_eq_true_2 by by right; right.
        by rewrite andb_true_r. }
    rewrite _read_no_branch by (intros [?|[?|?]]; done).
    exists []. split; [by rewrite app_nil_r|].
    rewrite bool_decide_eq_false_2 by (intros [?|[?|?]]; done).
    by rewrite andb_false_r. }
  destruct Hshape as (t & Ht & Hfs).
  assert (Hfin : ∀ o', final (match o' with
                        | Returned _ w => Returned self w
                        | Exited w => Exited w
                        | Raised e w => Raised e w
                        end) = final o' ∧
                       returned (match o' with
                        | Returned _ w => Returned self w
                        | Exited w => Exited w
                        | Raised e w => Raised e w
                        end) = returned (o' : outcome unit)) by by intros [].
  destruct (Hfin (_read self w0)) as [-> ->].
  rewrite Hfs, Ht, replay_app, <- Hw0. done.
Qed.

(** X11.  The reader changes the disk in three ways only: by creating
    the output directory, through the external programs it calls, and
    by the removal of the output directory, which happens exactly when
    cleanup is enabled, the extension is one of [yuv], [y], [mp4] and
    the construction returns.  A construction that raises or exits
    removes nothing, cleanup enabled or not. *)
Theorem construct_disk disk input_file size' start' end' fps' out_dir' clean' :
  let o := construct disk input_file size' start' end' fps' out_dir' clean' in
  fs (final o) =
  if returned o && clean' && bool_decide (supported (get_file_extension input_file))
  then remove_tree (norm out_dir') (replay (trace (final o)) disk)
  else replay (trace (final o)) disk.
Proof. apply construct_disk_shape. Qed.

(** X12.  The cleanup is not limited to what the reader made: when
    it runs, everything at and below the output directory is gone,
    also what was there before the construction, and every other path
    is as the directory creation and the external programs left it. *)
Theorem cleanup_scope disk input_file size' start' end' fps' out_dir' r w :
  supported (get_file_extension input_file) →
  construct disk input_file size' start' end' fps' out_dir' true = Returned r w →
  ∀ q, fs w !! q = if decide (below (norm out_dir') q) then None
                   else replay (trace w) disk !! q.
Proof.
  intros Hs Hr q.
  pose proof (construct_disk_shape disk input_file size' start' end' fps' out_dir' true)
    as Hd.
  simpl in Hd. rewrite Hr in Hd. simpl in Hd.
  rewrite bool_decide_eq_true_2 in Hd by done. rewrite Hd.
  case_decide; [by apply remove_tree_below|by apply remove_tree_other].
Qed.

Lemma range_cons a b : a < b → range a b = a :: range (Z.succ a) b.
Proof.
  intros Hlt. unfold range. rewrite seqZ_cons by lia. do 2 f_equal. lia.
Qed.

Lemma subscript_fails self :
  dims self = None →
  ∃ e, (size self = None → e = TypeError) ∧
       (size self ≠ None → e = IndexError) ∧
       ∀ inp idx w, _read_yuv_frame self inp idx w = Raised e w ∧
                    _read_y_frame self inp idx w = Raised e w.
Proof.
  unfold dims, _read_yuv_frame, _read_y_frame, subscript.
  destruct (size self) as [xs|].
  - intros Hd. exists IndexError. split_and!; [done..|]. intros inp idx w.
    destruct (xs !! 0%nat) as [a|]; [|done].
    destruct (xs !! 1%nat) as [b|]; done.
  - intros _. by exists TypeError.
Qed.

Lemma loop_fails_at_once (body : Z → M unit) self e w :
  start self < end_ self →
  (∀ idx w, body idx w = Raised e w) →
  (for_each (range (start self) (end_ self)) body;;
   if clean self then rmtree (out_dir self) else mret ()) w = Raised e w.
Proof.
  intros Hlt Hbody. rewrite range_cons by done.
  change (for_each (?i :: ?l) body) with (body i ;; for_each l body).
  by rewrite !bind_unfold, Hbody.
Qed.

(** X13.  Without a usable [size] (the default [None], or a list with
    fewer than two entries) a construction with [end > start] and one
    of the extensions [yuv], [y], [mp4] raises in the first turn of
    the loop, when the command line is built: [TypeError] for [None],
    [IndexError] for a short list.  No converter has run and no frame
    is stored; for [mp4] the transcoder has already been called. *)
Theorem size_is_required disk input_file size' start' end' fps' out_dir' clean' :
  let self := Self input_file out_dir' size' start' end' fps' clean' in
  let w0 := after_setup disk out_dir' in
  supported (get_file_extension input_file) →
  start' < end' →
  dims self = None →
  ∃ e w, construct disk input_file size' start' end' fps' out_dir' clean' = Raised e w ∧
         (size' = None → e = TypeError) ∧
         (size' ≠ None → e = IndexError) ∧
         frames w = ∅ ∧
         trace w = trace w0 ++ (if String.eqb (get_file_extension input_file) "mp4"
                                then [EvCall (Argv (ffmpeg_args self))] else []).
Proof.
  intros self w0 Hs Hlt Hd. rewrite construct_unfold. simpl. fold self w0.
  destruct (Z.leb_spec (end' - start') 0) as [?|_]; [lia|].
  destruct (subscript_fails self Hd) as (e & HT & HI & Hbody).
  assert (Hf0 : frames w0 = ∅) by apply after_setup_frames.
  exists e. destruct Hs as [E|[E|E]].
  - rewrite _read_yuv_branch by done. unfold _read_yuv.
    rewrite (loop_fails_at_once (_read_yuv_frame self (input self)) self e _ Hlt
               (λ idx w, proj1 (Hbody _ idx w))).
    exists w0. rewrite E. simpl. by rewrite app_nil_r.
  - rewrite _read_y_branch by done. unfold _read_y.
    rewrite (loop_fails_at_once (_read_y_frame self (input self)) self e _ Hlt
               (λ idx w, proj2 (Hbody _ idx w))).
    exists w0. rewrite E. simpl. by rewrite app_nil_r.
  - rewrite _read_mp4_branch by done. rewrite call_then. unfold _read_yuv.
    rewrite (loop_fails_at_once (_read_yuv_frame self (out_yuv self)) self e _ Hlt
               (λ idx w, proj1 (Hbody _ idx w))).
    eexists. split; [reflexivity|]. rewrite E. by simpl.
Qed.

Lemma loop_events_no_transcode (evs : Z → list event) l :
  (∀ idx, Forall (λ e, is_transcode e = false) (evs idx)) →
  Forall (λ e, is_transcode e = false) (concat (evs <$> l)).
Proof.
  intros Hev. induction l as [|idx l IH]; simpl; [done|].
  apply Forall_app. by split.
Qed.

Lemma yuv_loop_no_transcode self inp :
  Forall (λ e, is_transcode e = false) (yuv_loop_events self inp ++ cleanup_events self).
Proof.
  apply Forall_app. split.
  - apply loop_events_no_transcode. intros idx. unfold yuv_frame_events.
    destruct (dims self) as [[w h]|]; [|done]. by repeat constructor.
  - unfold cleanup_events. destruct (clean self); by repeat constructor.
Qed.

Lemma y_loop_no_transcode self inp :
  Forall (λ e, is_transcode e = false) (y_loop_events self inp ++ cleanup_events self).
Proof.
  apply Forall_app. split.
  - apply loop_events_no_transcode. intros idx. unfold y_frame_events.
    destruct (dims self) as [[w h]|]; [|done]. by repeat constructor.
  - unfold cleanup_events. destruct (clean self); by repeat constructor.
Qed.

Lemma after_setup_no_transcode disk dir :
  Forall (λ e, is_transcode e = false) (trace (after_setup disk dir)).
Proof.
  unfold after_setup. destruct (os_path_exists disk dir); by repeat constructor.
Qed.

(** X14.  The transcoder runs for [mp4] inputs only, and then once
    and before any converter: for every other input no call in the
    trace is a transcoder call, and for an [mp4] input with
    [end > start] the call follows the directory setup at once and no
    later call is one. *)
Theorem transcoder_only_for_mp4 disk input_file size' start' end' fps' out_dir' clean' :
  let self := Self input_file out_dir' size' start' end' fps' clean' in
  let o := construct disk input_file size' start' end' fps' out_dir' clean' in
  (get_file_extension input_file ≠ "mp4" →
     Forall (λ e, is_transcode e = false) (trace (final o))) ∧
  (get_file_extension input_file = "mp4" → start' < end' →
     ∃ t, trace (final o)
          = trace (after_setup disk out_dir') ++ EvCall (Argv (ffmpeg_args self)) :: t ∧
          Forall (λ e, is_transcode e = false) t).
Proof.
  intros self o. unfold o. rewrite construct_unfold. simpl. fold self.
  set (w0 := after_setup _ _).
  assert (Hw0 : Forall (λ e, is_transcode e = false) (trace w0))
    by apply after_setup_no_transcode.
  assert (Hfin : ∀ o' : outcome unit,
             final (match o' with
                    | Returned _ w => Returned self w
                    | Exited w => Exited w
                    | Raised e w => Raised e w
                    end) = final o') by by intros [].
  split.
  - intros Hne. destruct (end' - start' <=? 0); simpl.
    { apply Forall_app. split; [done|by repeat constructor]. }
    rewrite Hfin. destruct (decide (ext self = "yuv")) as [E|N1].
    { rewrite _read_yuv_branch by done.
      destruct (_read_yuv_post self (input self) w0) as (_ & (t & -> & Hp & _) & _).
      apply Forall_app. split; [done|].
      eapply prefix_Forall; [exact Hp|apply yuv_loop_no_transcode]. }
    destruct (decide (ext self = "y")) as [E|N2].
    { rewrite _read_y_branch by done.
      destruct (_read_y_post self (input self) w0) as (_ & (t & -> & Hp & _) & _).
      apply Forall_app. split; [done|].
      eapply prefix_Forall; [exact Hp|apply y_loop_no_transcode]. }
    rewrite _read_no_branch; [done|]. intros [?|[?|?]]; done.
  - intros E Hlt. destruct (Z.leb_spec (end' - start') 0) as [?|_]; [lia|].
    rewrite Hfin, _read_mp4_branch by done. rewrite call_then.
    set (w1 := World _ _ _).
    destruct (_read_yuv_post self (out_yuv self) w1) as (_ & (t & -> & Hp & _) & _).
    exists t. split; [simpl; by rewrite <- app_assoc|].
    eapply prefix_Forall; [exact Hp|apply yuv_loop_no_transcode].
Qed.

(** What a returned construction stored for every index of the
    range. *)
Lemma construct_returned_frames disk input_file size' start' end' fps' out_dir' clean' r w :
  supported (get_file_extension input_file) →
  construct disk input_file size' start' end' fps' out_dir' clean' = Returned r w →
  ∀ idx, start' ≤ idx < end' →
    ∃ fr, frames w !! idx = Some fr ∧
          dom fr = if String.eqb (get_file_extension input_file) "y"
                   then y_channels else yuv_channels.
Proof.
  intros Hs. rewrite construct_unfold. simpl.
  destruct (end' - start' <=? 0); [done|].
  set (self := Self _ _ _ _ _ _ _). set (w0 := after_setup _ _).
  destruct (_read_post self w0) as (evs & chans & Hpost & _ & Hyuv & Hy & Hmp4).
  destruct (Hpost Hs) as (_ & _ & Hg & _ & Hr).
  destruct (_read self w0) as [[] w1| |] eqn:E; [|done..].
  intros [= <- <-] idx Hidx. destruct Hr as (_ & Hdom & _).
  assert (Hin : idx ∈ dom (frames w1)).
  { rewrite Hdom, elem_of_union, elem_of_list_to_set. right.
    unfold range. apply elem_of_seqZ. simpl. lia. }
  apply elem_of_dom in Hin as [fr Hfr]. exists fr. split; [done|].
  destruct (Hg idx fr Hfr) as [Hold|Hd].
  { unfold w0 in Hold. by rewrite after_setup_frames, lookup_empty in Hold. }
  rewrite Hd. change (get_file_extension input_file) with (ext self) in *.
  destruct Hs as [E'|[E'|E']]; rewrite E'; simpl.
  - by destruct (Hyuv E') as [_ ->].
  - by destruct (Hy E') as [_ ->].
  - by destruct (Hmp4 E') as [_ ->].
Qed.

Lemma show_frame_ok idx w fr :
  frames w !! idx = Some fr → is_Some (fr !! "y") →
  show_frame idx w = Finished (World (fs w) (frames w) (trace w ++ frame_lines fr)).
Proof.
  intros Hfr [y Hy]. unfold show_frame, frame_lines, say. rewrite Hfr, Hy.
  destruct (fr !! "u") as [u|], (fr !! "v") as [v|]; simpl;
    by rewrite <- ?app_assoc, ?app_nil_r.
Qed.

Lemma show_frames_ok l w :
  (∀ idx, idx ∈ l → ∃ fr, frames w !! idx = Some fr ∧ is_Some (fr !! "y")) →
  show_frames l w =
  Finished (World (fs w) (frames w)
              (trace w ++ concat ((λ idx, frame_lines (default ∅ (frames w !! idx))) <$> l))).
Proof.
  revert w. induction l as [|idx l IH]; intros w Hl; simpl.
  - rewrite app_nil_r. by destruct w.
  - destruct (Hl idx) as (fr & Hfr & Hy); [by left|].
    rewrite (show_frame_ok idx w fr Hfr Hy), IH; simpl.
    + by rewrite Hfr, <- app_assoc.
    + intros i Hi. apply Hl. by right.
Qed.

Lemma frame_lines_length fr :
  (dom fr = yuv_channels → length (frame_lines fr) = 3%nat) ∧
  (dom fr = y_channels → length (frame_lines fr) = 1%nat).
Proof.
  unfold frame_lines, yuv_channels, y_channels. split; intros Hd.
  - assert (Hin : ∀ k : string, k ∈ ({["y"; "u"; "v"]} : gset string) → is_Some (fr !! k)).
    { intros k Hk. apply elem_of_dom. by rewrite Hd. }
    destruct (Hin "y") as [? ->]; [set_solver|].
    destruct (Hin "u") as [? ->]; [set_solver|].
    destruct (Hin "v") as [? ->]; [set_solver|]. done.
  - assert (Hy : is_Some (fr !! "y")) by (apply elem_of_dom; rewrite Hd; set_solver).
    assert (Hu : fr !! "u" = None)
      by (apply not_elem_of_dom; rewrite Hd; by intros ?%elem_of_singleton).
    assert (Hv : fr !! "v" = None)
      by (apply not_elem_of_dom; rewrite Hd; by intros ?%elem_of_singleton).
    destruct Hy as [? ->]. by rewrite Hu, Hv.
Qed.

Lemma length_concat_const {A B} (f : A → list B) c l :
  (∀ x, x ∈ l → length (f x) = c) → length (concat (f <$> l)) = (c * length l)%nat.
Proof.
  induction l as [|x l IH]; intros Hl; [simpl; lia|].
  change (concat (f <$> x :: l)) with (f x ++ concat (f <$> l)).
  rewrite length_app, Hl, IH; [simpl; lia| |by left].
  intros y Hy. apply Hl. by right.
Qed.

(** X15.  After a construction that returned for a [yuv], [y] or
    [mp4] input the walk of lines 170 to 181 meets no missing key:
    every index of the range is in the store and every frame has its
    [y] channel.  It prints one line per channel, in the order of the
    indices: three lines per index for [yuv] and [mp4], one for [y];
    store and disk are as the construction left them. *)
Theorem main_walks_the_store disk input_file size' start' end' fps' out_dir' clean' r w :
  supported (get_file_extension input_file) →
  construct disk input_file size' start' end' fps' out_dir' clean' = Returned r w →
  let lines := concat ((λ idx, frame_lines (default ∅ (frames w !! idx)))
                         <$> range start' end') in
  main disk input_file size' start' end' fps' out_dir' clean'
    = Finished (World (fs w) (frames w) (trace w ++ lines)) ∧
  Z.of_nat (length lines)
    = (if String.eqb (get_file_extension input_file) "y" then 1 else 3) * (end' - start').
Proof.
  intros Hs Hr lines.
  pose proof (construct_returned_frames _ _ _ _ _ _ _ _ _ _ Hs Hr) as Hfr.
  assert (Hlt : start' < end').
  { destruct (Z.lt_ge_cases start' end') as [|Hge]; [done|].
    rewrite (construct_invalid_range _ _ _ _ _ _ _ _ Hge) in Hr. done. }
  split.
  - unfold main. rewrite Hr. apply show_frames_ok. intros idx Hidx.
    unfold range in Hidx. apply elem_of_seqZ in Hidx.
    destruct (Hfr idx) as (fr & Hl & Hd); [lia|]. exists fr. split; [done|].
    apply elem_of_dom. rewrite Hd.
    destruct (String.eqb _ _); unfold y_channels, yuv_channels; set_solver.
  - unfold lines.
    rewrite (length_concat_const _
               (if String.eqb (get_file_extension input_file) "y" then 1 else 3)%nat).
    + unfold range. rewrite length_seqZ. destruct (String.eqb _ _); lia.
    + intros idx Hidx. unfold range in Hidx. apply elem_of_seqZ in Hidx.
      destruct (Hfr idx) as (fr & -> & Hd); [lia|]. simpl.
      destruct (frame_lines_length fr) as [H3 H1].
      destruct (String.eqb _ _); auto.
Qed.

(** X16.  For an input of any other extension the construction
    returns an empty store (C5), and the walk then raises [KeyError]
    on its first lookup, [frames[start]], before printing anything. *)
Theorem main_key_error disk input_file size' start' end' fps' out_dir' clean' :
  ¬ supported (get_file_extension input_file) →
  start' < end' →
  main disk input_file size' start' end' fps' out_dir' clean'
    = KeyError (IntKey start') (after_setup disk out_dir').
Proof.
  intros Hn Hlt. unfold main. rewrite construct_unfold. simpl.
  destruct (Z.leb_spec (end' - start') 0) as [?|_]; [lia|].
  rewrite _read_no_branch by done. rewrite range_cons by done. simpl.
  unfold show_frame. by rewrite after_setup_frames, lookup_empty.
Qed.

End Further.

(** X17.  The intermediate file of an [mp4] input is named after the
    base name of the input up to its first dot, and after nothing
    else: inputs in different directories, or with different text
    between the first dot and the extension, share one intermediate
    file in the output directory. *)
Theorem out_yuv_stem dir stem rest size' start' end' fps' out_dir' clean' :
  lacks "." stem = true → lacks "/" stem = true → lacks "/" rest = true →
  out_yuv (Self (dir +:+ "/" +:+ stem +:+ "." +:+ rest) out_dir' size' start' end' fps' clean')
    = out_dir' +:+ stem +:+ ".yuv".
Proof.
  intros Hdot Hslash Hrest. unfold out_yuv.
  change (input (Self ?i _ _ _ _ _ _)) with i.
  change (out_dir (Self _ ?o _ _ _ _ _)) with o.
  change (dir +:+ "/" +:+ stem +:+ "." +:+ rest)
    with (dir +:+ String "/" (stem +:+ String "." rest)).
  rewrite (item_last_split_sep "/" dir (stem +:+ String "." rest))
    by by rewrite lacks_app, lacks_cons, Hslash, Hrest.
  by rewrite split_app_sep, (split_lacks "." stem).
Qed.

Lemma out_yuv_stem_witness :
  lacks "." "clip" = true ∧ lacks "/" "clip" = true ∧
  lacks "/" "v1.mp4" = true ∧ lacks "/" "final.cut.mp4" = true ∧
  out_yuv (Self ("a" +:+ "/" +:+ "clip" +:+ "." +:+ "v1.mp4") "out/" None 0 1 10 true)
    = "out/" +:+ "clip" +:+ ".yuv" ∧
  out_yuv (Self ("b/c" +:+ "/" +:+ "clip" +:+ "." +:+ "final.cut.mp4") "out/" None 0 1 10 true)
    = "out/" +:+ "clip" +:+ ".yuv".
Proof.
  do 4 (split; [reflexivity|]). split.
  - apply (out_yuv_stem "a" "clip" "v1.mp4"); reflexivity.
  - apply (out_yuv_stem "b/c" "clip" "final.cut.mp4"); reflexivity.
Defined.

Lemma cleanup_scope_witness :
  supported (get_file_extension "videos/clip.y") ∧
  ∃ r w, @construct (demo_external "/")
           (<[norm "out/notes.txt" := OtherFile]>
              (<[norm "keep.txt" := OtherFile]> (<[norm "out" := Dir]> empty_disk)))
           "videos/clip.y" (Some [4; 4]) 0 1 10 "out" true = Returned r w ∧
         fs w !! norm "out/notes.txt" = None ∧
         fs w !! norm "keep.txt" = Some OtherFile.
Proof.
  assert (Hs : supported (get_file_extension "videos/clip.y")) by (right; left; reflexivity).
  split; [exact Hs|].
  destruct (@construct (demo_external "/")
              (<[norm "out/notes.txt" := OtherFile]>
                 (<[norm "keep.txt" := OtherFile]> (<[norm "out" := Dir]> empty_disk)))
              "videos/clip.y" (Some [4; 4]) 0 1 10 "out" true) as [r w|w|e w] eqn:E;
    [|vm_compute in E; discriminate E..].
  exists r, w. split; [reflexivity|].
  pose proof (@cleanup_scope (demo_external "/") _ _ _ _ _ _ _ r w Hs E) as Hq.
  pose proof E as E'. vm_compute in E'. injection E' as _ Ew.
  split; rewrite Hq; [by vm_compute|]. rewrite <- Ew. by vm_compute.
Defined.

Lemma size_is_required_witness :
  supported (get_file_extension "videos/clip.mp4") ∧ 0 < 3 ∧
  dims (Self "videos/clip.mp4" "out/" None 0 3 10 true) = None ∧
  ∃ w, run_demo "/" "videos/clip.mp4" None 0 3 10 "out/" true = Raised TypeError w ∧
       frames w = ∅ ∧
       trace w = [ EvMakedirs "out/";
                   EvCall (Argv [ "ffmpeg"; "-nostats"; "-loglevel"; "error"; "-i";
                                  "videos/clip.mp4"; "out/clip.yuv"; "-r"; "10" ]) ].
Proof.
  assert (Hs : supported (get_file_extension "videos/clip.mp4")) by (right; right; reflexivity).
  split; [exact Hs|]. split; [lia|]. split; [reflexivity|].
  destruct (@size_is_required (demo_external "/") empty_disk "videos/clip.mp4" None 0 3 10
              "out/" true Hs ltac:(lia) eq_refl) as (e & w & Hr & HT & _ & Hf & Ht).
  exists w. rewrite (HT eq_refl) in Hr. split; [exact Hr|]. split; [exact Hf|].
  rewrite Ht. reflexivity.
Defined.

Lemma transcoder_only_for_mp4_witness :
  get_file_extension "videos/clip.yuv" ≠ "mp4" ∧
  Forall (λ e, is_transcode e = false)
         (trace (final (run_demo "/" "videos/clip.yuv" (Some [4; 4]) 0 2 10 "out/" true))).
Proof.
  assert (Hne : get_file_extension "videos/clip.yuv" ≠ "mp4") by (intros E; discriminate E).
  split; [exact Hne|].
  exact (proj1 (@transcoder_only_for_mp4 (demo_external "/") empty_disk "videos/clip.yuv"
                  (Some [4; 4]) 0 2 10 "out/" true) Hne).
Defined.

Lemma main_walks_the_store_witness :
  supported (get_file_extension "videos/clip.yuv") ∧
  ∃ r w, run_demo "/" "videos/clip.yuv" (Some [4; 4]) 0 2 10 "out/" true = Returned r w ∧
         @main (demo_external "/") empty_disk "videos/clip.yuv" (Some [4; 4]) 0 2 10 "out/" true
         = Finished (World (fs w) (frames w)
                       (trace w ++ [ EvPrint "Y FRAME: (2, 2)"; EvPrint "U FRAME: (2, 2)";
                                     EvPrint "V FRAME: (2, 2)"; EvPrint "Y FRAME: (2, 2)";
                                     EvPrint "U FRAME: (2, 2)"; EvPrint "V FRAME: (2, 2)" ])).
Proof.
  assert (Hs : supported (get_file_extension "videos/clip.yuv")) by (left; reflexivity).
  split; [exact Hs|]. unfold run_demo.
  destruct (@construct (demo_external "/") empty_disk "videos/clip.yuv" (Some [4; 4]) 0 2 10
              "out/" true) as [r w|w|e w] eqn:E; [|vm_compute in E; discriminate E..].
  exists r, w. split; [reflexivity|].
  destruct (@main_walks_the_store (demo_external "/") _ _ _ _ _ _ _ _ r w Hs E) as [Hm _].
  rewrite Hm. do 2 f_equal.
  pose proof E as E'. vm_compute in E'. injection E' as _ Ew.
  rewrite <- Ew. vm_compute. reflexivity.
Defined.

Lemma main_key_error_witness :
  ¬ supported (get_file_extension "videos/clip.avi") ∧ 0 < 2 ∧
  @main (demo_external "/") empty_disk "videos/clip.avi" (Some [4; 4]) 0 2 10 "out/" true
  = KeyError (IntKey 0) (World (os_makedirs "out/" empty_disk) ∅ [EvMakedirs "out/"]).
Proof.
  assert (Hn : ¬ supported (get_file_extension "videos/clip.avi")).
  { intros [E|[E|E]]; vm_compute in E; discriminate. }
  split; [exact Hn|]. split; [lia|].
  exact (@main_key_error (demo_external "/") empty_disk "videos/clip.avi" (Some [4; 4]) 0 2 10
           "out/" true Hn ltac:(lia)).
Defined.

Lemma frame_store_is_a_prefix_witness :
  ∃ e w, @construct (demo_external_until "/" 2) empty_disk "videos/clip.y" (Some [4; 4])
           0 5 10 "out" false = Raised e w ∧
         e = FileNotFoundError "out/2_y.png" ∧
         ∀ i, i ∈ dom (frames w) ↔ 0 ≤ i < 2.
Proof.
  destruct (@construct (demo_external_until "/" 2) empty_disk "videos/clip.y" (Some [4; 4])
              0 5 10 "out" false) as [r w|w|e w] eqn:E;
    [vm_compute in E; discriminate E..|].
  exists e, w. split; [reflexivity|].
  pose proof E as E'. vm_compute in E'. injection E' as Ee Ew.
  split; [by rewrite <- Ee|].
  destruct (@frame_store_is_a_prefix (demo_external_until "/" 2) empty_disk "videos/clip.y"
              (Some [4; 4]) 0 5 10 "out" false) as (k & Hk & Hst & Hdom & _).
  rewrite E in Hst, Hdom. simpl in Hst, Hdom.
  assert (Hk2 : k = 2).
  { assert (Hl : length (stores (trace w)) = 2%nat) by (rewrite <- Ew; vm_compute; reflexivity).
    rewrite Hst, length_seqZ in Hl. lia. }
  intros i. rewrite Hdom, Hk2. done.
Defined.

(** ** The transcoded file and the output directory *)

(** C10.  The intermediate file of an [mp4] input is not placed inside
    the output directory when the directory string has no separator at
    its end.  Line 108 appends the file name to the directory string
    as it is, where [_read_y] and [_clean] join with a separator.  For
    the directory "out" and the input "videos/clip.mp4" the transcoder
    is told to write "outclip.yuv", an entry of the working directory
    next to "out", and not "out/clip.yuv".  With a converter that
    writes where [_read_y] loads, the construction calls the
    transcoder, calls the converter on "outclip.yuv" and ends in the
    load error of the raw loop; the file is on disk, outside the
    output directory.  Whatever the external programs do and however
    the construction ends, cleanup enabled, the reader leaves this
    path as the programs left it: removing "out" does not reach it. *)
Theorem C10_transcoded_file_beside_out_dir :
  let self := Self "videos/clip.mp4" "out" (Some [4; 4]) 0 1 10 true in
  get_file_extension "videos/clip.mp4" = "mp4" ∧
  out_yuv self = "outclip.yuv" ∧
  ffmpeg_args self = [ "ffmpeg"; "-nostats"; "-loglevel"; "error"; "-i";
                       "videos/clip.mp4"; "outclip.yuv"; "-r"; "10" ] ∧
  ¬ inside (norm "out") (norm "outclip.yuv") ∧
  inside (norm "out") (norm "out/clip.yuv") ∧
  (∃ w, run_demo "/" "videos/clip.mp4" (Some [4; 4]) 0 1 10 "out" true
          = Raised (FileNotFoundError "out0_y.png") w ∧
        trace w = [ EvMakedirs "out";
                    EvCall (Argv [ "ffmpeg"; "-nostats"; "-loglevel"; "error"; "-i";
                                   "videos/clip.mp4"; "outclip.yuv"; "-r"; "10" ]);
                    EvCall (Shell ("bash bash_utils/yuv_to_png.sh outclip.yuv out 0 "
                                     +:+ "bash_utils/convert_img.py 4 4"));
                    EvImread "out0_y.png" ] ∧
        os_path_exists (fs w) "outclip.yuv" = true ∧
        os_path_exists (fs w) "out/clip.yuv" = false) ∧
  (∀ (programs : External) disk,
     let o := @construct programs disk "videos/clip.mp4" (Some [4; 4]) 0 1 10 "out" true in
     fs (final o) !! norm "outclip.yuv"
     = @replay programs (trace (final o)) disk !! norm "outclip.yuv").
Proof.
  assert (Hout : ¬ inside (norm "out") (norm "outclip.yuv")).
  { apply (bool_decide_eq_false_1 _). vm_compute; reflexivity. }
  intros self. do 3 (split; [vm_compute; reflexivity|]).
  split; [exact Hout|].
  split; [apply (bool_decide_eq_true_1 _); vm_compute; reflexivity|].
  split.
  - eexists. split; [vm_compute; reflexivity|]. split_and!; vm_compute; reflexivity.
  - intros programs disk o. unfold o.
    rewrite (@construct_disk_shape programs disk "videos/clip.mp4" (Some [4; 4]) 0 1 10
               "out" true).
    destruct (_ && _ && _); [|done].
    apply remove_tree_other. intros Hb. apply Hout. split; [done|].
    intros E. vm_compute in E. discriminate E.
Qed.
